(** * Cluster membership manager (cluster/members_manager.cc)

    A shallow embedding of the members manager: the registry that binds
    node UUIDs to node ids, the handling of join and configuration-update
    requests, and the application of controller-log batches.

    The manager object is a record, its member functions are computations
    in a state monad with one extra outcome for a failed [vassert] (which
    terminates the process).  The collaborators that live outside
    members_manager.cc (consensus, controller state machine, RPC layer,
    per-shard members table) are either records of observations or
    section variables. *)

From Equations Require Import Equations.
From stdpp Require Import gmap strings list fin_maps fin_sets sorting.
From Stdlib Require Import ZArith Lia.

Local Open Scope Z_scope.

(** ** Identifiers *)

(** [model::node_id] is a named [int32_t], [model::offset] a named
    [int64_t]: both are integers of [Z] here.  The only arithmetic done on
    them is [+ 1] on node ids, which stays within [int32_t] (see
    [get_or_assign_range] below).  A [model::node_uuid] is a 16-byte
    value, a [list Byte.byte]. *)

Definition INT_MAX : Z := 2147483647.
Definition unassigned_node_id : Z := -1.
(** [node_uuid::type::length] *)
Definition node_uuid_length : nat := 16.

#[global] Instance byte_eq_dec : EqDecision Byte.byte := Byte.byte_eq_dec.
#[global] Instance byte_countable : Countable Byte.byte :=
  inj_countable Byte.to_N Byte.of_N Byte.of_to_N.

(** ** Brokers (model/metadata.h) *)

(** Modelled from the spec: [net::unresolved_address], a host name and a
    port, compared field by field. *)
Record unresolved_address := mk_address {
  host : string;
  port : Z
}.

(** Modelled from the spec: [model::broker_endpoint], a named endpoint;
    equality is element-wise and includes the name. *)
Record broker_endpoint := mk_endpoint {
  ep_name : string;
  ep_address : unresolved_address
}.

(** Modelled from the spec: [model::broker_properties]; [cores] is the
    only field the manager constrains. *)
Record broker_properties := mk_properties {
  cores : Z
}.

(** Modelled from the spec: [model::broker]: node id, advertised Kafka
    listeners, RPC listener address, optional rack, properties. *)
Record broker := mk_broker {
  broker_id : Z;
  kafka_advertised_listeners : list broker_endpoint;
  rpc_address : unresolved_address;
  rack : option string;
  properties : broker_properties
}.

#[global] Instance unresolved_address_eq_dec : EqDecision unresolved_address.
Proof. solve_decision. Defined.
#[global] Instance broker_endpoint_eq_dec : EqDecision broker_endpoint.
Proof. solve_decision. Defined.
#[global] Instance broker_properties_eq_dec : EqDecision broker_properties.
Proof. solve_decision. Defined.
#[global] Instance broker_eq_dec : EqDecision broker.
Proof. solve_decision. Defined.

(** ** Members table (cluster/members_table.h) *)

Inductive node_state := active | draining | drained | decommissioning.

(** Modelled from the spec: a members table entry
    [{broker, state, update_offset}]. *)
Record node_metadata := mk_node_metadata {
  nm_broker : broker;
  nm_state : node_state;
  nm_update_offset : Z
}.

(** Modelled from the spec: the per-shard members table: the active
    brokers by id ([nodes()]) and the tombstone map of removed brokers. *)
Record members_table := mk_members_table {
  nodes : gmap Z node_metadata;
  removed_nodes : gmap Z node_metadata
}.

(** Modelled from the spec: [members_table::get_node_metadata_ref]. *)
Definition get_node_metadata_ref (mt : members_table) (id : Z)
  : option node_metadata := nodes mt !! id.

(** Modelled from the spec: [members_table::contains]. *)
Definition contains (mt : members_table) (id : Z) : bool :=
  bool_decide (is_Some (nodes mt !! id)).

(** Modelled from the spec: [members_table::get_removed_node_metadata_ref],
    a lookup in the tombstone map. *)
Definition get_removed_node_metadata_ref (mt : members_table) (id : Z)
  : option node_metadata := removed_nodes mt !! id.

(** [has_value()] of a [std::optional]. *)
Definition has_value {A} (o : option A) : bool :=
  match o with Some _ => true | None => false end.

(** [ss::sharded<T>]: one instance per shard; [local] is the instance of
    the shard the manager runs on, [remote] those of the other shards. *)
Record sharded (A : Type) := mk_sharded {
  local : A;
  remote : list A
}.
Arguments mk_sharded {A} _ _.
Arguments local {A} _.
Arguments remote {A} _.

(** [sharded::invoke_on_all] with a function that only mutates. *)
Definition invoke_on_all {A} (f : A → A) (sh : sharded A) : sharded A :=
  mk_sharded (f (local sh)) (f <$> remote sh).

(** ** Errors *)

(** Modelled from the spec: [cluster::errc], the codes that
    members_manager.cc names and the spec lists, and the rest of the
    enumeration by number. *)
Inductive errc :=
| success
| invalid_request
| invalid_node_operation
| invalid_configuration_update
| no_leader_controller
| seed_servers_exhausted
| join_request_dispatch_error
| other_errc (code : Z).

(** A [std::error_code]: a value within a category.  The manager sees
    codes of three categories: its own, the consensus layer's and the RPC
    layer's.  Value 0 of the foreign categories is their success. *)
Inductive error_code :=
| cluster_error (e : errc)
| raft_error (v : Z)
| rpc_error (v : Z).

#[global] Instance errc_eq_dec : EqDecision errc.
Proof. solve_decision. Defined.
#[global] Instance error_code_eq_dec : EqDecision error_code.
Proof. solve_decision. Defined.

(** [result<T>]: a value or an error code. *)
Inductive result (A : Type) :=
| value (a : A)
| error (ec : error_code).
Arguments value {A} _.
Arguments error {A} _.

(** ** Update queue and calls to collaborators *)

Inductive node_update_type :=
| added
| decommissioned
| recommissioned
| reallocation_finished.

Record node_update := mk_node_update {
  nu_id : Z;
  nu_type : node_update_type;
  nu_offset : Z
}.

#[global] Instance node_update_type_eq_dec : EqDecision node_update_type.
Proof. solve_decision. Defined.
#[global] Instance node_update_eq_dec : EqDecision node_update.
Proof. solve_decision. Defined.

(** The typed calls the manager issues to the partition allocator and to
    the drain manager; the manager's view of these collaborators is the
    sequence of calls it has made. *)
Inductive allocator_call :=
| update_allocation_nodes (brokers : list broker)
| allocator_decommission_node (id : Z)
| allocator_recommission_node (id : Z).

Inductive drain_call :=
| drain
| restore.

(** ** The manager object *)

Record members_manager := mk_members_manager {
  _self : broker;
  _members_table : sharded members_table;
  _connection_cache : gmap Z unresolved_address;
  _allocator : list allocator_call;
  _drain_manager : list drain_call;
  _update_queue : list node_update;
  _id_by_uuid : gmap (list Byte.byte) Z;
  _next_assigned_id : Z;
  _last_connection_update_offset : Z
}.

Definition set_members_table (f : sharded members_table → sharded members_table)
    (s : members_manager) : members_manager :=
  mk_members_manager (_self s) (f (_members_table s)) (_connection_cache s)
    (_allocator s) (_drain_manager s) (_update_queue s) (_id_by_uuid s)
    (_next_assigned_id s) (_last_connection_update_offset s).

Definition set_connection_cache
    (f : gmap Z unresolved_address → gmap Z unresolved_address)
    (s : members_manager) : members_manager :=
  mk_members_manager (_self s) (_members_table s) (f (_connection_cache s))
    (_allocator s) (_drain_manager s) (_update_queue s) (_id_by_uuid s)
    (_next_assigned_id s) (_last_connection_update_offset s).

Definition set_allocator (f : list allocator_call → list allocator_call)
    (s : members_manager) : members_manager :=
  mk_members_manager (_self s) (_members_table s) (_connection_cache s)
    (f (_allocator s)) (_drain_manager s) (_update_queue s) (_id_by_uuid s)
    (_next_assigned_id s) (_last_connection_update_offset s).

Definition set_drain_manager (f : list drain_call → list drain_call)
    (s : members_manager) : members_manager :=
  mk_members_manager (_self s) (_members_table s) (_connection_cache s)
    (_allocator s) (f (_drain_manager s)) (_update_queue s) (_id_by_uuid s)
    (_next_assigned_id s) (_last_connection_update_offset s).

Definition set_update_queue (f : list node_update → list node_update)
    (s : members_manager) : members_manager :=
  mk_members_manager (_self s) (_members_table s) (_connection_cache s)
    (_allocator s) (_drain_manager s) (f (_update_queue s)) (_id_by_uuid s)
    (_next_assigned_id s) (_last_connection_update_offset s).

Definition set_id_by_uuid
    (f : gmap (list Byte.byte) Z → gmap (list Byte.byte) Z)
    (s : members_manager) : members_manager :=
  mk_members_manager (_self s) (_members_table s) (_connection_cache s)
    (_allocator s) (_drain_manager s) (_update_queue s) (f (_id_by_uuid s))
    (_next_assigned_id s) (_last_connection_update_offset s).

Definition set_next_assigned_id (n : Z) (s : members_manager)
  : members_manager :=
  mk_members_manager (_self s) (_members_table s) (_connection_cache s)
    (_allocator s) (_drain_manager s) (_update_queue s) (_id_by_uuid s)
    n (_last_connection_update_offset s).

Definition set_last_connection_update_offset (o : Z) (s : members_manager)
  : members_manager :=
  mk_members_manager (_self s) (_members_table s) (_connection_cache s)
    (_allocator s) (_drain_manager s) (_update_queue s) (_id_by_uuid s)
    (_next_assigned_id s) o.

(** The constructor: an empty update queue, an empty registry and
    [_next_assigned_id(model::node_id(1))].  The collaborators are handed
    in; [_last_connection_update_offset] is default-constructed (the
    smallest [int64_t]) until [start()] sets it. *)
Definition new_members_manager (self : broker)
    (tables : sharded members_table)
    (connections : gmap Z unresolved_address) : members_manager :=
  mk_members_manager self tables connections [] [] [] ∅ 1
    (- 9223372036854775808).

(** ** The monad of member functions *)

(** A member function either completes with a value and the new state of
    the manager, or dies on a failed [vassert]. *)
Inductive outcome (A : Type) :=
| Done (a : A) (s : members_manager)
| Abort.
Arguments Done {A} _ _.
Arguments Abort {A}.

Definition M (A : Type) : Type := members_manager → outcome A.

Definition ret {A} (a : A) : M A := fun s => Done a s.

Definition bind {A B} (c : M A) (k : A → M B) : M B :=
  fun s => match c s with
           | Done a s' => k a s'
           | Abort => Abort
           end.

Definition get : M members_manager := fun s => Done s s.

Definition modify (f : members_manager → members_manager) : M unit :=
  fun s => Done tt (f s).

Definition vassert (b : bool) : M unit :=
  fun s => if b then Done tt s else Abort.

Notation "'let*' x ':=' c 'in' k" := (bind c (fun x => k))
  (at level 10, x name, c at level 100, k at level 200).
Notation "c ';;;' k" := (bind c (fun _ => k))
  (at level 100, k at level 200, right associativity).

(** ** Node id registry *)

(** [try_register_node_id]. A UUID that is not in the registry is bound
    to the requested id (whether or not the members table already has
    that id: the branch on [contains] only logs); a known UUID succeeds
    when it is bound to the requested id. *)
Definition try_register_node_id (requested_node_id : Z)
    (requested_node_uuid : list Byte.byte) : M bool :=
  vassert (negb (requested_node_id =? unassigned_node_id)) ;;;
  let* s := get in
  match _id_by_uuid s !! requested_node_uuid with
  | None =>
      modify (set_id_by_uuid (<[requested_node_uuid := requested_node_id]>)) ;;;
      ret true
  | Some node_id => ret (node_id =? requested_node_id)
  end.

(** The condition of the [while] loop of [get_or_assign_node_id]. *)
Definition id_in_use (mt : members_table) (n : Z) : bool :=
  contains mt n || has_value (get_removed_node_metadata_ref mt n).

(** The ids the loop condition looks at. *)
Definition used_ids (mt : members_table) : gset Z :=
  dom (nodes mt) ∪ dom (removed_nodes mt).

(** How the loop is left: through the [return std::nullopt] in its body,
    or because the condition became false; either way with the value the
    counter then has. *)
Inductive scan_exit :=
| returned_nullopt (next : Z)
| condition_false (next : Z).

(** The loop
    [while (contains(next) || removed(next)) { if (next == INT_MAX) return
    nullopt; ++next; }].  Every round finds one more used id, hence the
    measure. *)
Equations? skip_used_ids (mt : members_table) (next : Z) : scan_exit
    by wf (size (filter (λ k, next ≤ k) (used_ids mt))) lt :=
  skip_used_ids mt next with bool_dec (id_in_use mt next) true := {
    | left _ with decide (next = INT_MAX) := {
        | left _ => returned_nullopt next
        | right _ => skip_used_ids mt (next + 1) };
    | right _ => condition_false next }.
Proof.
  assert (Hused : next ∈ used_ids mt).
  { unfold id_in_use, contains, get_removed_node_metadata_ref in e.
    apply orb_true_iff in e as [e|e].
    - apply elem_of_union_l, elem_of_dom. by apply bool_decide_eq_true in e.
    - apply elem_of_union_r, elem_of_dom.
      destruct (removed_nodes mt !! next); [eauto | discriminate]. }
  apply subset_size, strict_spec_alt. split.
  - intros k. rewrite !elem_of_filter. intros [? ?]. split; [lia | done].
  - intros Heq.
    assert (Hn : next ∈ filter (λ k, next + 1 ≤ k) (used_ids mt)).
    { rewrite Heq. apply elem_of_filter. split; [lia | done]. }
    apply elem_of_filter in Hn as [? _]. lia.
Qed.

(** [get_or_assign_node_id]. *)
Definition get_or_assign_node_id (uuid : list Byte.byte) : M (option Z) :=
  let* s := get in
  match _id_by_uuid s !! uuid with
  | None =>
      match skip_used_ids (local (_members_table s)) (_next_assigned_id s) with
      | returned_nullopt next =>
          modify (set_next_assigned_id next) ;;;
          ret None
      | condition_false next =>
          modify (set_next_assigned_id next) ;;;
          if next =? INT_MAX then ret None
          else
            modify (set_id_by_uuid (<[uuid := next]>)) ;;;
            modify (set_next_assigned_id (next + 1)) ;;;
            ret (Some next)
      end
  | Some id => ret (Some id)
  end.

(** [get_node_id]: the id of a registered UUID; the registration must
    have completed. *)
Definition get_node_id (uuid : list Byte.byte) : M Z :=
  let* s := get in
  match _id_by_uuid s !! uuid with
  | Some id => ret id
  | None => fun _ => Abort
  end.

(** The loop of [apply_initial_node_uuid_map] over the ids in the order
    the map is iterated. *)
Fixpoint seed_next_assigned_id (ids : list Z) (next : Z) : Z :=
  match ids with
  | [] => next
  | id :: rest =>
      if id =? INT_MAX then id
      else seed_next_assigned_id rest (Z.max next (id + 1))
  end.

(** [apply_initial_node_uuid_map]. *)
Definition apply_initial_node_uuid_map (id_by_uuid : gmap (list Byte.byte) Z)
  : M unit :=
  let* s := get in
  vassert (bool_decide (_id_by_uuid s = ∅)) ;;;
  modify (set_next_assigned_id
            (seed_next_assigned_id (map_to_list id_by_uuid).*2
               (_next_assigned_id s))) ;;;
  modify (set_id_by_uuid (fun _ => id_by_uuid)).

(** ** Consensus group (raft/group_configuration.h, raft/consensus.h) *)

(** Modelled from the spec: [raft::vnode], a node id with a revision,
    and [raft::group_nodes], the voters and learners of a configuration. *)
Record vnode := mk_vnode {
  vnode_id : Z;
  vnode_revision : Z
}.

Record group_nodes := mk_group_nodes {
  voters : list vnode;
  learners : list vnode
}.

Inductive configuration_state := simple | joint.

(** Modelled from the spec: [raft::group_configuration]: the brokers of
    the controller group, a state and, when joint, the old configuration
    with its learners. *)
Record group_configuration := mk_group_configuration {
  brokers : list broker;
  get_state : configuration_state;
  old_config : option group_nodes
}.

(** Modelled from the spec: [contains_broker], [contains_address] and
    [find_broker] of a group configuration look through its brokers. *)
Definition contains_broker (cfg : group_configuration) (id : Z) : bool :=
  existsb (fun b => broker_id b =? id) (brokers cfg).

Definition contains_address (cfg : group_configuration)
    (a : unresolved_address) : bool :=
  existsb (fun b => bool_decide (rpc_address b = a)) (brokers cfg).

Definition find_broker (cfg : group_configuration) (id : Z) : option broker :=
  find (fun b => broker_id b =? id) (brokers cfg).

(** What the manager reads from and asks of [_raft0].  The two requests
    answer with a code of the consensus layer's category, 0 for success;
    their effect reaches the manager later, as a committed batch. *)
Record consensus := mk_consensus {
  config : group_configuration;
  is_elected_leader : bool;
  get_leader_id : option Z;
  add_group_members : list broker → Z → Z;
  update_group_member : broker → Z
}.

(** ** Commands, batches, requests *)

Inductive command :=
| decommission_node_cmd (key : Z)
| recommission_node_cmd (key : Z)
| finish_reallocations_cmd (key : Z)
| maintenance_mode_cmd (key : Z) (enabled : bool)
| register_node_uuid_cmd (key : list Byte.byte) (requested : option Z).

(** A committed batch as [apply_update] sees it once deserialised: a raft
    configuration batch with its records, or a node management command. *)
Inductive record_batch :=
| raft_configuration (base_offset : Z) (records : list group_configuration)
| node_management_cmd (base_offset : Z) (cmd : command).

(** Modelled from the spec: the requests and replies of [join_node] and
    [update_node_configuration] (cluster/types.h). *)
Record join_node_request := mk_join_node_request {
  logical_version : Z;
  node_uuid : list Byte.byte;
  node : broker
}.

Record join_node_reply := mk_join_node_reply {
  join_success : bool;
  join_id : Z
}.

Record configuration_update_request := mk_configuration_update_request {
  update_node : broker;
  target_node : Z
}.

Record configuration_update_reply := mk_configuration_update_reply {
  update_success : bool
}.

(** How a call through the RPC layer ([with_client] and the generated
    client protocol) ends: with the peer's reply, with a code of the RPC
    layer, or with an exception. *)
Inductive rpc_outcome (A : Type) :=
| rpc_reply (a : A)
| rpc_failed (v : Z)
| rpc_exception.
Arguments rpc_reply {A} _.
Arguments rpc_failed {A} _.
Arguments rpc_exception {A}.

(** ** Changed nodes and the connection cache *)

Record changed_nodes := mk_changed_nodes {
  cn_added : list broker;
  cn_updated : list broker;
  cn_removed : list Z
}.

(** [calculate_changed_nodes]: the brokers of the configuration that the
    local members table lacks ([added]) or holds with another value
    ([updated]), and the ids of the table that the configuration lacks
    ([removed]). *)
Definition calculate_changed_nodes (s : members_manager)
    (cfg : group_configuration) : changed_nodes :=
  let mt := local (_members_table s) in
  let ret1 :=
    foldl (fun ret cfg_broker =>
             match get_node_metadata_ref mt (broker_id cfg_broker) with
             | None =>
                 mk_changed_nodes (cn_added ret ++ [cfg_broker])
                   (cn_updated ret) (cn_removed ret)
             | Some n =>
                 if bool_decide (nm_broker n = cfg_broker) then ret
                 else mk_changed_nodes (cn_added ret)
                        (cn_updated ret ++ [cfg_broker]) (cn_removed ret)
             end)
      (mk_changed_nodes [] [] []) (brokers cfg) in
  foldl (fun ret entry =>
           if contains_broker cfg entry.1 then ret
           else mk_changed_nodes (cn_added ret) (cn_updated ret)
                  (cn_removed ret ++ [entry.1]))
    ret1 (map_to_list (nodes mt)).

(** Modelled from the spec: [remove_broker_client] drops the client of
    the node from the connection cache. *)
Definition remove_broker_client (id : Z)
    (cache : gmap Z unresolved_address) : gmap Z unresolved_address :=
  delete id cache.

(** Modelled from the spec: [update_broker_client] adds the client of the
    node or replaces it with one for the new address. *)
Definition update_broker_client (id : Z) (addr : unresolved_address)
    (cache : gmap Z unresolved_address) : gmap Z unresolved_address :=
  <[id := addr]> cache.

(** [update_connections]: removed ids first, then added, then updated
    brokers, the node itself skipped in each. *)
Definition update_connections (self_id : Z) (changed : changed_nodes)
    (cache : gmap Z unresolved_address) : gmap Z unresolved_address :=
  let upd := fun c b =>
    if broker_id b =? self_id then c
    else update_broker_client (broker_id b) (rpc_address b) c in
  let c1 := foldl (fun c id => if id =? self_id then c
                               else remove_broker_client id c)
              cache (cn_removed changed) in
  let c2 := foldl upd c1 (cn_added changed) in
  foldl upd c2 (cn_updated changed).

(** [_update_queue.push_eventually]: the update goes to the back of the
    queue.  Waiting for room and the abort on shutdown are not part of
    the model. *)
Definition push_eventually (u : node_update) : M unit :=
  modify (set_update_queue (fun q => q ++ [u])).

(** ** Validation of a configuration update *)

Inductive configuration_conflict :=
| core_count_decreased
| duplicate_rpc_endpoint (existing : Z)
| duplicate_kafka_endpoint (ep : broker_endpoint) (existing : Z).

(** The body of the loop of [check_result_configuration] for one entry
    of the members table. *)
Definition check_one (to_update : broker) (entry : Z * node_metadata)
  : option configuration_conflict :=
  let '(id, current) := entry in
  if id =? broker_id to_update then
    if cores (properties (nm_broker current)) >? cores (properties to_update)
    then Some core_count_decreased
    else None
  else if bool_decide (rpc_address (nm_broker current) = rpc_address to_update)
  then Some (duplicate_rpc_endpoint id)
  else
    match find (fun current_ep =>
                  existsb (fun ep => bool_decide (current_ep = ep))
                    (kafka_advertised_listeners to_update))
            (kafka_advertised_listeners (nm_broker current)) with
    | Some current_ep => Some (duplicate_kafka_endpoint current_ep id)
    | None => None
    end.

(** [check_result_configuration]: the first conflict met while iterating
    over the current brokers, if any. *)
Fixpoint first_conflict (to_update : broker)
    (entries : list (Z * node_metadata)) : option configuration_conflict :=
  match entries with
  | [] => None
  | e :: rest =>
      match check_one to_update e with
      | Some c => Some c
      | None => first_conflict to_update rest
      end
  end.

Definition check_result_configuration
    (current_brokers : gmap Z node_metadata) (to_update : broker)
  : option configuration_conflict :=
  first_conflict to_update (map_to_list current_brokers).

(** ** Member functions that talk to the collaborators *)

Section Manager.

(** The consensus instance of the controller group. *)
Variable _raft0 : consensus.

(** [_feature_table.local().is_active(feature::node_id_assignment)]. *)
Variable node_id_assignment_active : bool.

(** [members_table::apply(offset, cmd)] on one shard: the result code
    and the table afterwards. *)
Variable members_table_apply :
  Z → command → members_table → errc * members_table.

(** [members_table::update_brokers(offset, brokers)] on one shard. *)
Variable update_brokers : Z → list broker → members_table → members_table.

(** [replicate_and_wait]: the command goes through the controller log
    and the call answers once it has been applied (or has failed); the
    manager may have changed in the meantime. *)
Variable replicate_and_wait : command → M error_code.

(** The [join_node] and [update_node_configuration] calls to the node
    with the given id and address. *)
Variable join_node_rpc :
  Z → unresolved_address → join_node_request → rpc_outcome join_node_reply.
Variable update_node_configuration_rpc :
  Z → unresolved_address → configuration_update_request →
  rpc_outcome configuration_update_reply.

(** [handle_raft0_cfg_update]. *)
Definition handle_raft0_cfg_update (cfg : group_configuration)
    (update_offset : Z) : M unit :=
  modify (set_allocator
            (fun a => a ++ [update_allocation_nodes (brokers cfg)])) ;;;
  let* s := get in
  let diff := calculate_changed_nodes s cfg in
  let added_nodes := cn_added diff in
  modify (set_members_table
            (invoke_on_all (update_brokers update_offset (brokers cfg)))) ;;;
  let* s := get in
  if update_offset <=? _last_connection_update_offset s then ret tt
  else
    modify (set_connection_cache
              (update_connections (broker_id (_self s)) diff)) ;;;
    modify (set_last_connection_update_offset update_offset) ;;;
    foldr (fun b k =>
             push_eventually
               (mk_node_update (broker_id b) added update_offset) ;;; k)
      (ret tt) added_nodes.

(** [apply_raft_configuration_batch]. *)
Definition apply_raft_configuration_batch (base_offset : Z)
    (records : list group_configuration) : M error_code :=
  vassert (length records =? 1)%nat ;;;
  match records with
  | cfg :: _ =>
      handle_raft0_cfg_update cfg base_offset ;;;
      ret (cluster_error success)
  | [] => fun _ => Abort
  end.

(** [dispatch_updates_to_cores]: the command is applied to the table of
    every shard; the results must all equal the first one. *)
Definition dispatch_updates_to_cores (update_offset : Z) (cmd : command)
  : M errc :=
  let* s := get in
  let r0 := members_table_apply update_offset cmd
              (local (_members_table s)) in
  let rs := members_table_apply update_offset cmd
              <$> remote (_members_table s) in
  modify (set_members_table (fun _ => mk_sharded r0.2 rs.*2)) ;;;
  let sentinel := r0.1 in
  let state_consistent :=
    forallb (fun res => bool_decide (sentinel = res)) (r0.1 :: rs.*1) in
  vassert state_consistent ;;;
  ret sentinel.

(** [apply_update]. *)
Definition apply_update (b : record_batch) : M error_code :=
  match b with
  | raft_configuration base_offset records =>
      apply_raft_configuration_batch base_offset records
  | node_management_cmd update_offset cmd =>
      match cmd with
      | decommission_node_cmd id =>
          let* err := dispatch_updates_to_cores update_offset cmd in
          (if bool_decide (err = success) then
             modify (set_allocator
                       (fun a => a ++ [allocator_decommission_node id])) ;;;
             push_eventually (mk_node_update id decommissioned update_offset)
           else ret tt) ;;;
          ret (cluster_error err)
      | recommission_node_cmd id =>
          let raft0_cfg := config _raft0 in
          let dispatch :=
            let* err := dispatch_updates_to_cores update_offset cmd in
            (if bool_decide (err = success) then
               modify (set_allocator
                         (fun a => a ++ [allocator_recommission_node id])) ;;;
               push_eventually
                 (mk_node_update id recommissioned update_offset)
             else ret tt) ;;;
            ret (cluster_error err) in
          match get_state raft0_cfg with
          | joint =>
              match old_config raft0_cfg with
              | Some old =>
                  match find (fun vn => vnode_id vn =? id) (learners old) with
                  | Some _ => ret (cluster_error invalid_node_operation)
                  | None => dispatch
                  end
              | None => fun _ => Abort
              end
          | simple => dispatch
          end
      | finish_reallocations_cmd id =>
          push_eventually
            (mk_node_update id reallocation_finished update_offset) ;;;
          ret (cluster_error success)
      | maintenance_mode_cmd id enabled =>
          let* err := dispatch_updates_to_cores update_offset cmd in
          let* s := get in
          (if bool_decide (err = success) && (id =? broker_id (_self s)) then
             modify (set_drain_manager
                       (fun d => d ++ [if enabled then drain else restore]))
           else ret tt) ;;;
          ret (cluster_error err)
      | register_node_uuid_cmd node_uuid requested_node_id =>
          match requested_node_id with
          | Some requested =>
              let* ok := try_register_node_id requested node_uuid in
              if ok then ret (cluster_error success)
              else ret (cluster_error join_request_dispatch_error)
          | None =>
              let* node_id := get_or_assign_node_id node_uuid in
              match node_id with
              | None => ret (cluster_error invalid_node_operation)
              | Some _ => ret (cluster_error success)
              end
          end
      end
  end.

(** [replicate_new_node_uuid]. *)
Definition replicate_new_node_uuid (uuid : list Byte.byte)
    (node_id : option Z) : M (result join_node_reply) :=
  let* ec := replicate_and_wait (register_node_uuid_cmd uuid node_id) in
  if bool_decide (ec ≠ cluster_error success) then ret (error ec)
  else
    let* assigned_node_id := get_node_id uuid in
    match node_id with
    | Some requested =>
        if negb (assigned_node_id =? requested)
        then ret (error (cluster_error invalid_request))
        else
          let* id := get_node_id uuid in
          ret (value (mk_join_node_reply true id))
    | None =>
        let* id := get_node_id uuid in
        ret (value (mk_join_node_reply true id))
    end.

(** The result of an RPC made on behalf of a request: the reply, the
    RPC layer's code, and [join_request_dispatch_error] for an
    exception (the [handle_exception] of both callers). *)
Definition rpc_result {A} (o : rpc_outcome A) : result A :=
  match o with
  | rpc_reply a => value a
  | rpc_failed v => error (rpc_error v)
  | rpc_exception => error (cluster_error join_request_dispatch_error)
  end.

(** [dispatch_rpc_to_leader], for the forwarded join request. *)
Definition dispatch_rpc_to_leader (req : join_node_request)
  : result join_node_reply :=
  match get_leader_id _raft0 with
  | None => error (cluster_error no_leader_controller)
  | Some leader_id =>
      match find_broker (config _raft0) leader_id with
      | None => error (cluster_error no_leader_controller)
      | Some leader =>
          rpc_result (join_node_rpc leader_id (rpc_address leader) req)
      end
  end.

(** [handle_configuration_update_request]. *)
Definition handle_configuration_update_request
    (req : configuration_update_request)
  : M (result configuration_update_reply) :=
  let* s := get in
  if negb (target_node req =? broker_id (_self s))
  then ret (value (mk_configuration_update_reply false))
  else
    let all_brokers := nodes (local (_members_table s)) in
    match check_result_configuration all_brokers (update_node req) with
    | Some _ => ret (error (cluster_error invalid_configuration_update))
    | None =>
        let changed := mk_changed_nodes [] [update_node req] [] in
        modify (set_connection_cache
                  (update_connections (broker_id (_self s)) changed)) ;;;
        match get_leader_id _raft0 with
        | None => ret (error (cluster_error no_leader_controller))
        | Some leader_id =>
            if leader_id =? broker_id (_self s) then
              let ec := update_group_member _raft0 (update_node req) in
              if negb (ec =? 0) then ret (error (raft_error ec))
              else ret (value (mk_configuration_update_reply true))
            else
              match get_node_metadata_ref (local (_members_table s))
                      leader_id with
              | None => ret (error (cluster_error no_leader_controller))
              | Some leader =>
                  ret (rpc_result
                         (update_node_configuration_rpc leader_id
                            (rpc_address (nm_broker leader))
                            (mk_configuration_update_request
                               (update_node req) leader_id)))
              end
        end
    end.

(** The part of [handle_join_request] that deals with the registry
    (node id assignment active, UUID present, this node the leader):
    [Some r] when it ends the request with [r], [None] when the request
    goes on to be added to the controller group. *)
Definition join_registration (uuid : list Byte.byte) (req_node_id : option Z)
  : M (option (result join_node_reply)) :=
  let* s := get in
  let it := _id_by_uuid s !! uuid in
  match req_node_id with
  | None =>
      match it with
      | None =>
          let* r := replicate_new_node_uuid uuid req_node_id in
          ret (Some r)
      | Some bound =>
          ret (Some (value (mk_join_node_reply true bound)))
      end
  | Some requested =>
      match it with
      | None =>
          let* r := replicate_new_node_uuid uuid req_node_id in
          match r with
          | error _ => ret (Some r)
          | value reply =>
              if negb (join_success reply) then ret (Some r) else ret None
          end
      | Some bound =>
          if negb (requested =? bound) then
            ret (Some (value (mk_join_node_reply false unassigned_node_id)))
          else if has_value (get_removed_node_metadata_ref
                               (local (_members_table s)) bound) then
            ret (Some (value (mk_join_node_reply false unassigned_node_id)))
          else ret None
      end
  end.

(** The end of [handle_join_request], from the check of the current
    configuration on. *)
Definition join_group (req : join_node_request)
  : M (result join_node_reply) :=
  let* s := get in
  if contains_broker (config _raft0) (broker_id (node req)) then
    let node_id := broker_id (node req) in
    let update_req :=
      mk_configuration_update_request (node req) (broker_id (_self s)) in
    let* r := handle_configuration_update_request update_req in
    match r with
    | value reply =>
        let success := update_success reply in
        ret (value (mk_join_node_reply success
                      (if success then node_id else unassigned_node_id)))
    | error ec => ret (error ec)
    end
  else if negb node_id_assignment_active
          && contains_address (config _raft0) (rpc_address (node req)) then
    ret (value (mk_join_node_reply false unassigned_node_id))
  else
    (if negb (broker_id (node req) =? broker_id (_self s)) then
       modify (set_connection_cache
                 (update_broker_client (broker_id (node req))
                    (rpc_address (node req))))
     else ret tt) ;;;
    let ec := add_group_members _raft0 [node req] 0 in
    if ec =? 0 then
      ret (value (mk_join_node_reply true (broker_id (node req))))
    else ret (error (raft_error ec)).

(** [handle_join_request]. *)
Definition handle_join_request (req : join_node_request)
  : M (result join_node_reply) :=
  let node_id_assignment_supported := node_id_assignment_active in
  let req_has_node_uuid := negb (bool_decide (node_uuid req = [])) in
  if node_id_assignment_supported && negb req_has_node_uuid then
    ret (error (cluster_error invalid_request))
  else
    let req_node_id :=
      if 0 <=? broker_id (node req) then Some (broker_id (node req))
      else None in
    if negb node_id_assignment_supported && negb (has_value req_node_id) then
      ret (error (cluster_error invalid_request))
    else if req_has_node_uuid
            && negb (length (node_uuid req) =? node_uuid_length)%nat then
      ret (error (cluster_error invalid_request))
    else if negb (has_value req_node_id) && negb req_has_node_uuid then
      ret (error (cluster_error invalid_request))
    else if negb (is_elected_leader _raft0) then
      ret (dispatch_rpc_to_leader req)
    else if node_id_assignment_supported && req_has_node_uuid then
      let* early := join_registration (node_uuid req) req_node_id in
      match early with
      | Some r => ret r
      | None => join_group req
      end
    else join_group req.

End Manager.

(** * Definitions used by the statements *)

(** ** Sequences of registry calls *)

(** What happens to the registry over time: calls of its two mutators,
    and changes of the members tables in between (the tables are written
    by other commands). *)
Inductive registry_event :=
| try_register_call (requested_node_id : Z) (uuid : list Byte.byte)
| get_or_assign_call (uuid : list Byte.byte)
| members_table_change (tables : sharded members_table).

Definition registry_step (ev : registry_event) (s : members_manager)
  : option members_manager :=
  match ev with
  | try_register_call requested uuid =>
      match try_register_node_id requested uuid s with
      | Done _ s' => Some s'
      | Abort => None
      end
  | get_or_assign_call uuid =>
      match get_or_assign_node_id uuid s with
      | Done _ s' => Some s'
      | Abort => None
      end
  | members_table_change tables =>
      Some (set_members_table (fun _ => tables) s)
  end.

Fixpoint registry_run (evs : list registry_event) (s : members_manager)
  : option members_manager :=
  match evs with
  | [] => Some s
  | ev :: rest =>
      match registry_step ev s with
      | Some s' => registry_run rest s'
      | None => None
      end
  end.

Definition is_try_register (ev : registry_event) : bool :=
  match ev with try_register_call _ _ => true | _ => false end.

(** The UUIDs that a call of [get_or_assign_node_id] binds in the
    course of a sequence of events. *)
Definition newly_assigned (ev : registry_event) (s : members_manager)
  : gset (list Byte.byte) :=
  match ev with
  | get_or_assign_call uuid =>
      match _id_by_uuid s !! uuid, get_or_assign_node_id uuid s with
      | None, Done (Some _) _ => {[ uuid ]}
      | _, _ => ∅
      end
  | _ => ∅
  end.

Fixpoint assigned_uuids (evs : list registry_event) (s : members_manager)
  : gset (list Byte.byte) :=
  match evs with
  | [] => ∅
  | ev :: rest =>
      match registry_step ev s with
      | Some s' => newly_assigned ev s ∪ assigned_uuids rest s'
      | None => ∅
      end
  end.

(** What the registry maintains for a set of UUIDs that were given their
    ids by [get_or_assign_node_id]: the counter is in range and above
    their ids, and no two of them share an id. *)
Definition assigned_below_counter (A : gset (list Byte.byte))
    (s : members_manager) : Prop :=
  1 ≤ _next_assigned_id s ≤ INT_MAX
  ∧ (∀ u, u ∈ A →
          ∃ n, _id_by_uuid s !! u = Some n ∧ 1 ≤ n < _next_assigned_id s)
  ∧ (∀ u1 u2 n, u1 ∈ A → u2 ∈ A →
                _id_by_uuid s !! u1 = Some n →
                _id_by_uuid s !! u2 = Some n → u1 = u2).

(** ** Conflicting entries *)

(** An entry of the members table stands in the way of an update: it has
    the id of the updated broker and more cores, or it has another id and
    the same RPC address or a Kafka endpoint in common. *)
Definition conflicts_with (to_update : broker) (id : Z)
    (current : node_metadata) : Prop :=
  (id = broker_id to_update
   ∧ cores (properties to_update) < cores (properties (nm_broker current)))
  ∨ (id ≠ broker_id to_update
     ∧ (rpc_address (nm_broker current) = rpc_address to_update
        ∨ ∃ ep, ep ∈ kafka_advertised_listeners (nm_broker current)
                ∧ ep ∈ kafka_advertised_listeners to_update)).

(** ** Sample data *)

Definition uuid_of (b : Byte.byte) : list Byte.byte := repeat b 16.
Definition uuid_1 : list Byte.byte := uuid_of Byte.x01.
Definition uuid_2 : list Byte.byte := uuid_of Byte.x02.

Definition sample_broker (id cores_ : Z) (rpc_port kafka_port : Z) : broker :=
  mk_broker id
    [mk_endpoint "internal" (mk_address "10.0.0.1" kafka_port)]
    (mk_address "10.0.0.1" rpc_port) None (mk_properties cores_).

Definition sample_entry (b : broker) : node_metadata :=
  mk_node_metadata b active 0.

Definition empty_table : members_table := mk_members_table ∅ ∅.

(** A table whose members are the given brokers and whose tombstones are
    the given ids. *)
Definition sample_table (members : list broker) (tombstones : list Z)
  : members_table :=
  mk_members_table
    (list_to_map ((fun b => (broker_id b, sample_entry b)) <$> members))
    (list_to_map ((fun id => (id, sample_entry (sample_broker id 1 0 0)))
                    <$> tombstones)).

Definition self_broker : broker := sample_broker 0 8 33145 9092.

(** A manager fresh from its constructor, with one shard. *)
Definition fresh_manager (mt : members_table) : members_manager :=
  new_members_manager self_broker (mk_sharded mt []) ∅.

(** A controller group of one, this node, which leads it; requests to
    the consensus layer succeed. *)
Definition sample_raft0 (cfg : group_configuration) : consensus :=
  mk_consensus cfg true (Some 0) (fun _ _ => 0) (fun _ => 0).

Definition simple_configuration (bs : list broker) : group_configuration :=
  mk_group_configuration bs simple None.

Definition unreachable_peer {A B C R} : A → B → C → rpc_outcome R :=
  fun _ _ _ => rpc_exception.

(** The table of a shard that takes every command and forgets the node:
    had the command been dispatched, the tables would have changed. *)
Definition forgetful_apply (o : Z) (cmd : command) (mt : members_table)
  : errc * members_table := (success, empty_table).

(** Broker 1 has been removed; its UUID is still bound to id 1. *)
Definition after_decommission : members_manager :=
  set_next_assigned_id 2
    (set_id_by_uuid (<[uuid_1 := 1]>)
       (fresh_manager (sample_table [self_broker] [1]))).

Definition never_replicated : command → M error_code :=
  fun _ => ret (cluster_error (other_errc 1)).

(** Replication in a cluster of one: the command is committed at once
    and applied to this manager. *)
Definition replicate_locally (raft0 : consensus) : command → M error_code :=
  fun cmd =>
    apply_update raft0 forgetful_apply (fun _ _ mt => mt)
      (node_management_cmd 1 cmd).

(** The seed of a new cluster: this node alone, in the table and in the
    controller group. *)
Definition seed_manager : members_manager :=
  fresh_manager (sample_table [self_broker] []).

Definition seed_raft0 : consensus :=
  sample_raft0 (simple_configuration [self_broker]).

(** * Further member functions *)

(** Modelled from the spec: [config::seed_server], an entry of
    [seed_servers]; the manager looks at its address. *)
Record seed_server := mk_seed_server {
  seed_addr : unresolved_address
}.

(** How a dispatch that does not catch exceptions ends. *)
Inductive attempt (A : Type) :=
| attempt_result (r : result A)
| attempt_exception.
Arguments attempt_result {A} _.
Arguments attempt_exception {A}.

(** [get_update_request_target]: the leader when it is known and among
    the brokers, else the broker at the index the random generator
    gives ([get_int(brokers.size() - 1)], a number between 0 and the
    last index). *)
Definition get_update_request_target (current_leader : option Z)
    (brokers_ : list broker) (random_index : nat) : option broker :=
  match current_leader with
  | Some leader =>
      match find (fun b => broker_id b =? leader) brokers_ with
      | Some b => Some b
      | None => brokers_ !! random_index
      end
  | None => brokers_ !! random_index
  end.

(** [get_node_updates]: with updates in the queue, all of them, in
    order; with an empty queue the call waits for the next update to be
    pushed ([arriving]) and returns it alone. *)
Definition get_node_updates (arriving : node_update)
  : M (list node_update) :=
  let* s := get in
  match _update_queue s with
  | [] => ret [arriving]
  | _ :: _ =>
      modify (set_update_queue (fun _ => [])) ;;;
      ret (_update_queue s)
  end.

Section Dispatch.

Variable _raft0 : consensus.
Variable node_id_assignment_active : bool.
Variable members_table_apply :
  Z → command → members_table → errc * members_table.
Variable update_brokers : Z → list broker → members_table → members_table.
Variable replicate_and_wait : command → M error_code.
Variable join_node_rpc :
  Z → unresolved_address → join_node_request → rpc_outcome join_node_reply.
Variable update_node_configuration_rpc :
  Z → unresolved_address → configuration_update_request →
  rpc_outcome configuration_update_reply.

(** [dispatch_join_to_remote]: a one-shot client to the seed server. *)
Variable dispatch_join_to_remote :
  seed_server → join_node_request → rpc_outcome join_node_reply.

(** [dispatch_join_to_seed_server]: the seed servers are tried in order,
    this node itself through [handle_join_request]; an error, a refusal
    or an exception moves on to the next one. *)
Fixpoint dispatch_join_to_seed_server (seeds : list seed_server)
    (req : join_node_request) : M (result join_node_reply) :=
  match seeds with
  | [] => ret (error (cluster_error seed_servers_exhausted))
  | it :: rest =>
      let* s := get in
      let* f :=
        if bool_decide (seed_addr it = rpc_address (_self s)) then
          let* r := handle_join_request _raft0 node_id_assignment_active
                      replicate_and_wait join_node_rpc
                      update_node_configuration_rpc req in
          ret (attempt_result r)
        else
          ret (match dispatch_join_to_remote it req with
               | rpc_reply a => attempt_result (value a)
               | rpc_failed v => attempt_result (error (rpc_error v))
               | rpc_exception => attempt_exception
               end) in
      match f with
      | attempt_result (value reply) =>
          if join_success reply then ret (value reply)
          else dispatch_join_to_seed_server rest req
      | attempt_result (error _) => dispatch_join_to_seed_server rest req
      | attempt_exception => dispatch_join_to_seed_server rest req
      end
  end.

(** [do_dispatch_configuration_update]: to this node itself through
    [handle_configuration_update_request], to another node by RPC; an
    exception of the RPC is not caught here. *)
Definition do_dispatch_configuration_update (target updated_cfg : broker)
  : M (attempt configuration_update_reply) :=
  let* s := get in
  if broker_id target =? broker_id (_self s) then
    let* r := handle_configuration_update_request _raft0
                update_node_configuration_rpc
                (mk_configuration_update_request updated_cfg
                   (broker_id (_self s))) in
    ret (attempt_result r)
  else
    ret (match update_node_configuration_rpc (broker_id target)
                 (rpc_address target)
                 (mk_configuration_update_request updated_cfg
                    (broker_id target)) with
         | rpc_reply a => attempt_result (value a)
         | rpc_failed v => attempt_result (error (rpc_error v))
         | rpc_exception => attempt_exception
         end).

(** Committed batches applied one after the other, as the controller
    state machine hands them to [apply_update]; the codes they return
    are collected. *)
Fixpoint apply_updates (batches : list record_batch)
  : M (list error_code) :=
  match batches with
  | [] => ret []
  | b :: rest =>
      let* ec := apply_update _raft0 members_table_apply update_brokers b in
      let* ecs := apply_updates rest in
      ret (ec :: ecs)
  end.

End Dispatch.

(** The offset a batch is applied at. *)
Definition batch_offset (b : record_batch) : Z :=
  match b with
  | raft_configuration o _ | node_management_cmd o _ => o
  end.

Definition is_register_batch (b : record_batch) : bool :=
  match b with
  | node_management_cmd _ (register_node_uuid_cmd _ _) => true
  | _ => false
  end.

(** Every bound id is below the counter. *)
Definition bound_below_counter (s : members_manager) : Prop :=
  ∀ u n, _id_by_uuid s !! u = Some n → n < _next_assigned_id s.

(** No two UUIDs are bound to the same id. *)
Definition registry_injective (s : members_manager) : Prop :=
  ∀ u1 u2 n, _id_by_uuid s !! u1 = Some n →
             _id_by_uuid s !! u2 = Some n → u1 = u2.

(** ** Further definitions used by the statements *)

(** The address [update_connections] leaves for id [k] after a list of
    brokers: that of the last broker of the list with id [k]. *)
Fixpoint last_address (k : Z) (bs : list broker) (acc : option unresolved_address)
  : option unresolved_address :=
  match bs with
  | [] => acc
  | b :: rest =>
      last_address k rest
        (if broker_id b =? k then Some (rpc_address b) else acc)
  end.

(** A table that knows no node 9 and says so. *)
Definition refusing_apply (o : Z) (cmd : command) (mt : members_table)
  : errc * members_table := (invalid_node_operation, mt).

Definition accepting_apply (o : Z) (cmd : command) (mt : members_table)
  : errc * members_table := (success, mt).

(** What holds of the registry after an initial map [m] was loaded with
    the counter at [floor]: the counter has not fallen below [floor] and
    is in range, no two UUIDs share an id, while the counter is below
    [INT_MAX] every bound id is below it, and an id bound to a UUID
    outside [m] is at least [floor]. *)
Definition loaded_registry (m : gmap (list Byte.byte) Z) (floor : Z)
    (s : members_manager) : Prop :=
  floor ≤ _next_assigned_id s ≤ INT_MAX
  ∧ registry_injective s
  ∧ (_next_assigned_id s < INT_MAX → bound_below_counter s)
  ∧ (∀ u n, _id_by_uuid s !! u = Some n → m !! u = None → floor ≤ n).

(** Two managers that differ at most in their connection caches, and
    there not in the entry of the node itself. *)
Definition same_but_connections (s s' : members_manager) : Prop :=
  _self s' = _self s
  ∧ _members_table s' = _members_table s
  ∧ _allocator s' = _allocator s
  ∧ _drain_manager s' = _drain_manager s
  ∧ _update_queue s' = _update_queue s
  ∧ _id_by_uuid s' = _id_by_uuid s
  ∧ _next_assigned_id s' = _next_assigned_id s
  ∧ _last_connection_update_offset s' = _last_connection_update_offset s
  ∧ _connection_cache s' !! broker_id (_self s)
    = _connection_cache s !! broker_id (_self s).

Definition follower_raft0 : consensus :=
  mk_consensus (simple_configuration [self_broker]) false None
    (fun _ _ => 0) (fun _ => 0).

Definition seed_of (port_ : Z) : seed_server :=
  mk_seed_server (mk_address "10.0.0.1" port_).

(** A cluster whose seed on port 33146 accepts and gives id 3; every
    other seed cannot be reached. *)
Definition one_good_seed (sd : seed_server) (req : join_node_request)
  : rpc_outcome join_node_reply :=
  if port (seed_addr sd) =? 33146 then rpc_reply (mk_join_node_reply true 3)
  else rpc_exception.

(** A remote seed server did not accept the request. *)
Definition seed_fails (remote : seed_server → join_node_request →
                                rpc_outcome join_node_reply)
    (req : join_node_request) (sd : seed_server) : Prop :=
  ∀ reply, remote sd req = rpc_reply reply → join_success reply = false.

(** * Properties *)

(** ** The scan for a free id *)

(** What the loop of [get_or_assign_node_id] computes: it leaves through
    its condition at the first id at or after the counter that is neither
    a member nor a tombstone, having met [INT_MAX] nowhere before; or it
    returns from its body at [INT_MAX], every id from the counter up to
    and including [INT_MAX] being in use. *)
Lemma skip_used_ids_spec mt next :
  match skip_used_ids mt next with
  | condition_false m =>
      next ≤ m ∧ id_in_use mt m = false
      ∧ ∀ k, next ≤ k < m → id_in_use mt k = true ∧ k ≠ INT_MAX
  | returned_nullopt m =>
      m = INT_MAX ∧ next ≤ m ∧ ∀ k, next ≤ k ≤ m → id_in_use mt k = true
  end.
Proof.
  funelim (skip_used_ids mt next).
  - split; [lia|]. split; [|intros; lia].
    by destruct (id_in_use mt next).
  - subst. split; [done|]. split; [lia|].
    intros k Hk. by replace k with INT_MAX by lia.
  - destruct (skip_used_ids mt (next + 1)) as [m|m].
    + destruct H as (-> & Hle & Hall). split; [done|]. split; [lia|].
      intros k Hk. destruct (decide (k = next)) as [->|]; [done|].
      apply Hall. lia.
    + destruct H as (Hle & Hfree & Hall). split; [lia|]. split; [done|].
      intros k Hk. destruct (decide (k = next)) as [->|]; [done|].
      apply Hall. lia.
Qed.

(** The scan never leaves the range of [int32_t]. *)
Lemma skip_used_ids_range mt next :
  next ≤ INT_MAX →
  match skip_used_ids mt next with
  | condition_false m | returned_nullopt m => next ≤ m ≤ INT_MAX
  end.
Proof.
  intros Hle. pose proof (skip_used_ids_spec mt next) as H.
  destruct (skip_used_ids mt next) as [m|m].
  - lia.
  - destruct H as (Hm & _ & Hall). split; [done|].
    destruct (decide (m ≤ INT_MAX)); [done|].
    destruct (Hall INT_MAX) as [_ ?]; [lia | done].
Qed.

(** ** [get_or_assign_node_id] *)

Lemma get_or_assign_bound s uuid id :
  _id_by_uuid s !! uuid = Some id →
  get_or_assign_node_id uuid s = Done (Some id) s.
Proof.
  intros H. unfold get_or_assign_node_id, bind, get, ret. by rewrite H.
Qed.

Lemma get_or_assign_unbound s uuid :
  _id_by_uuid s !! uuid = None →
  get_or_assign_node_id uuid s =
  match skip_used_ids (local (_members_table s)) (_next_assigned_id s) with
  | returned_nullopt next => Done None (set_next_assigned_id next s)
  | condition_false next =>
      if next =? INT_MAX then Done None (set_next_assigned_id next s)
      else Done (Some next)
             (set_next_assigned_id (next + 1)
                (set_id_by_uuid (<[uuid := next]>) s))
  end.
Proof.
  intros H. unfold get_or_assign_node_id, bind, get, ret, modify.
  rewrite H.
  destruct (skip_used_ids _ _) as [m|m]; [done|].
  by destruct (m =? INT_MAX).
Qed.



(** ** [try_register_node_id] *)

Lemma try_register_unassigned s uuid :
  try_register_node_id unassigned_node_id uuid s = Abort.
Proof. reflexivity. Qed.

Lemma try_register_unknown s requested uuid :
  requested ≠ unassigned_node_id →
  _id_by_uuid s !! uuid = None →
  try_register_node_id requested uuid s =
  Done true (set_id_by_uuid (<[uuid := requested]>) s).
Proof.
  intros Hne H. unfold try_register_node_id, bind, vassert, get, modify, ret.
  destruct (requested =? unassigned_node_id) eqn:E;
    [apply Z.eqb_eq in E; done|]. simpl. by rewrite H.
Qed.

Lemma try_register_known s requested uuid bound :
  requested ≠ unassigned_node_id →
  _id_by_uuid s !! uuid = Some bound →
  try_register_node_id requested uuid s = Done (bound =? requested) s.
Proof.
  intros Hne H. unfold try_register_node_id, bind, vassert, get, modify, ret.
  destruct (requested =? unassigned_node_id) eqn:E;
    [apply Z.eqb_eq in E; done|]. simpl. by rewrite H.
Qed.

(** C4, as amended. For a requested id other than [unassigned_node_id]:
    an unknown UUID is bound to the requested id and the call returns
    true, whoever else holds that id; a UUID bound to the requested id
    returns true and a UUID bound to another id returns false, both
    without a change. *)
Theorem try_register_node_id_spec s requested uuid :
  requested ≠ unassigned_node_id →
  match _id_by_uuid s !! uuid with
  | None =>
      try_register_node_id requested uuid s =
      Done true (set_id_by_uuid (<[uuid := requested]>) s)
  | Some bound =>
      try_register_node_id requested uuid s =
      Done (bool_decide (bound = requested)) s
  end.
Proof.
  intros Hne. destruct (_id_by_uuid s !! uuid) as [bound|] eqn:H.
  - rewrite (try_register_known _ _ _ _ Hne H). f_equal.
    case_bool_decide; [by apply Z.eqb_eq | by apply Z.eqb_neq].
  - by apply try_register_unknown.
Qed.

Lemma try_register_node_id_spec_witness :
  let s := set_id_by_uuid (<[uuid_1 := 5]>) (fresh_manager empty_table) in
  5 ≠ unassigned_node_id
  ∧ try_register_node_id 5 uuid_2 s
    = Done true (set_id_by_uuid (<[uuid_2 := 5]>) s).
Proof.
  intros s. split; [done|].
  exact (try_register_node_id_spec s 5 uuid_2 ltac:(done)).
Defined.

(** C4 as stated fails: with UUID 1 bound to id 5, registering id 5 for
    the unknown UUID 2 is none of the two cases in which the call may
    return true, and it returns true. *)
Lemma try_register_node_id_counterexample :
  ¬ (∀ s requested uuid,
       requested ≠ unassigned_node_id →
       ¬ (_id_by_uuid s !! uuid = None
          ∧ ∀ other, other ≠ uuid → _id_by_uuid s !! other ≠ Some requested) →
       ¬ (_id_by_uuid s !! uuid = Some requested) →
       ∃ s', try_register_node_id requested uuid s = Done false s').
Proof.
  intros H.
  destruct (H (set_id_by_uuid (<[uuid_1 := 5]>) (fresh_manager empty_table))
              5 uuid_2) as [s' Hs'].
  - done.
  - intros [_ Hfree]. by apply (Hfree uuid_1).
  - done.
  - discriminate Hs'.
Qed.

(** ** Sequences of registry calls *)

(** A successful [get_or_assign_node_id]: either the UUID was bound and
    nothing changed, or a fresh id at or after the old counter was bound
    and the counter stepped over it. *)
Lemma get_or_assign_cases s uuid r s' :
  _next_assigned_id s ≤ INT_MAX →
  get_or_assign_node_id uuid s = Done r s' →
  (s' = s ∧ ∃ id, r = Some id ∧ _id_by_uuid s !! uuid = Some id)
  ∨ (_id_by_uuid s !! uuid = None ∧
     ((∃ n, r = Some n ∧ _next_assigned_id s ≤ n < INT_MAX
            ∧ s' = set_next_assigned_id (n + 1)
                     (set_id_by_uuid (<[uuid := n]>) s))
      ∨ (r = None ∧ s' = set_next_assigned_id INT_MAX s))).
Proof.
  intros Hrange Hcall.
  destruct (_id_by_uuid s !! uuid) as [id|] eqn:Hlook.
  - left. rewrite (get_or_assign_bound _ _ _ Hlook) in Hcall.
    injection Hcall as <- <-. eauto.
  - right. split; [done|].
    rewrite (get_or_assign_unbound _ _ Hlook) in Hcall.
    pose proof (skip_used_ids_spec (local (_members_table s))
                  (_next_assigned_id s)) as Hspec.
    pose proof (skip_used_ids_range (local (_members_table s))
                  (_next_assigned_id s) Hrange) as Hr.
    destruct (skip_used_ids _ _) as [m|m].
    + destruct Hspec as (-> & _). injection Hcall as <- <-. by right.
    + destruct (m =? INT_MAX) eqn:Hm.
      * apply Z.eqb_eq in Hm as ->. injection Hcall as <- <-. by right.
      * apply Z.eqb_neq in Hm. injection Hcall as <- <-. left.
        exists m. split; [done|]. split; [lia | done].
Qed.

Lemma get_or_assign_total s uuid :
  ∃ r s', get_or_assign_node_id uuid s = Done r s'.
Proof.
  destruct (_id_by_uuid s !! uuid) as [id|] eqn:H.
  - rewrite (get_or_assign_bound _ _ _ H). eauto.
  - rewrite (get_or_assign_unbound _ _ H).
    destruct (skip_used_ids _ _) as [m|m]; [eauto|].
    destruct (m =? INT_MAX); eauto.
Qed.

(** The counter of a manager stays within [1, INT_MAX], so the [++] of
    [get_or_assign_node_id] never overflows. *)
Lemma get_or_assign_range s uuid r s' :
  1 ≤ _next_assigned_id s ≤ INT_MAX →
  get_or_assign_node_id uuid s = Done r s' →
  _next_assigned_id s ≤ _next_assigned_id s' ≤ INT_MAX.
Proof.
  intros [? Hr] Hcall.
  destruct (get_or_assign_cases _ _ _ _ Hr Hcall)
    as [[-> _] | [_ [(n & _ & Hn & ->) | [_ ->]]]]; simpl; lia.
Qed.

Lemma registry_step_range ev s s' :
  1 ≤ _next_assigned_id s ≤ INT_MAX →
  registry_step ev s = Some s' →
  _next_assigned_id s ≤ _next_assigned_id s' ≤ INT_MAX.
Proof.
  intros Hr Hstep. destruct ev as [requested uuid | uuid | tables]; simpl in *.
  - destruct (decide (requested = unassigned_node_id)) as [->|Hne];
      [by rewrite try_register_unassigned in Hstep|].
    destruct (_id_by_uuid s !! uuid) as [bound|] eqn:Hl.
    + rewrite (try_register_known _ _ _ _ Hne Hl) in Hstep.
      injection Hstep as <-. lia.
    + rewrite (try_register_unknown _ _ _ Hne Hl) in Hstep.
      injection Hstep as <-. simpl. lia.
  - destruct (get_or_assign_node_id uuid s) as [r s1|] eqn:Hcall; [|done].
    injection Hstep as <-. by eapply get_or_assign_range.
  - injection Hstep as <-. simpl. lia.
Qed.

(** A call that returns an id leaves the UUID bound to it. *)
Lemma get_or_assign_binds s uuid n s' :
  get_or_assign_node_id uuid s = Done (Some n) s' →
  _id_by_uuid s' !! uuid = Some n.
Proof.
  intros Hcall. destruct (_id_by_uuid s !! uuid) as [id|] eqn:Hlook.
  - rewrite (get_or_assign_bound _ _ _ Hlook) in Hcall.
    by injection Hcall as <- <-.
  - rewrite (get_or_assign_unbound _ _ Hlook) in Hcall.
    destruct (skip_used_ids _ _) as [m|m]; [done|].
    destruct (m =? INT_MAX); [done|].
    injection Hcall as <- <-. simpl. apply lookup_insert_eq.
Qed.

(** A binding, once made, stays as it is. *)
Lemma get_or_assign_keeps s uuid r s' u n :
  get_or_assign_node_id uuid s = Done r s' →
  _id_by_uuid s !! u = Some n →
  _id_by_uuid s' !! u = Some n.
Proof.
  intros Hcall Hu. destruct (_id_by_uuid s !! uuid) as [id|] eqn:Hlook.
  - rewrite (get_or_assign_bound _ _ _ Hlook) in Hcall.
    by injection Hcall as <- <-.
  - rewrite (get_or_assign_unbound _ _ Hlook) in Hcall.
    destruct (skip_used_ids _ _) as [m|m];
      [by injection Hcall as <- <- |].
    destruct (m =? INT_MAX); injection Hcall as <- <-; [done|]. simpl.
    rewrite lookup_insert_ne; [done | congruence].
Qed.

Lemma registry_step_binding ev s s' u n :
  registry_step ev s = Some s' →
  _id_by_uuid s !! u = Some n →
  _id_by_uuid s' !! u = Some n.
Proof.
  intros Hstep Hu. destruct ev as [requested uuid | uuid | tables];
    simpl in *.
  - destruct (decide (requested = unassigned_node_id)) as [->|Hne];
      [by rewrite try_register_unassigned in Hstep|].
    destruct (_id_by_uuid s !! uuid) as [bound|] eqn:Hl.
    + rewrite (try_register_known _ _ _ _ Hne Hl) in Hstep.
      by injection Hstep as <-.
    + rewrite (try_register_unknown _ _ _ Hne Hl) in Hstep.
      injection Hstep as <-. simpl.
      rewrite lookup_insert_ne; [done | congruence].
  - destruct (get_or_assign_node_id uuid s) as [r s1|] eqn:Hcall; [|done].
    injection Hstep as <-. by eapply get_or_assign_keeps.
  - by injection Hstep as <-.
Qed.

Lemma registry_run_range evs s s' :
  1 ≤ _next_assigned_id s ≤ INT_MAX →
  registry_run evs s = Some s' →
  _next_assigned_id s ≤ _next_assigned_id s' ≤ INT_MAX.
Proof.
  revert s. induction evs as [|ev evs IH]; intros s Hr Hrun; simpl in Hrun.
  - injection Hrun as <-. lia.
  - destruct (registry_step ev s) as [s1|] eqn:Hstep; [|done].
    pose proof (registry_step_range _ _ _ Hr Hstep).
    specialize (IH s1 ltac:(lia) Hrun). lia.
Qed.

Lemma registry_run_binding evs s s' u n :
  registry_run evs s = Some s' →
  _id_by_uuid s !! u = Some n →
  _id_by_uuid s' !! u = Some n.
Proof.
  revert s. induction evs as [|ev evs IH]; intros s Hrun Hu; simpl in Hrun.
  - by injection Hrun as <-.
  - destruct (registry_step ev s) as [s1|] eqn:Hstep; [|done].
    apply (IH s1); [done|]. by eapply registry_step_binding.
Qed.

(** C10. Once a call of [get_or_assign_node_id] has returned id [n] for
    a UUID, every later call for that UUID returns [n] and changes
    nothing, whatever registry calls and changes of the members table
    and its tombstones came in between. *)
Theorem get_or_assign_node_id_idempotent s uuid n s1 evs s2 :
  get_or_assign_node_id uuid s = Done (Some n) s1 →
  registry_run evs s1 = Some s2 →
  get_or_assign_node_id uuid s2 = Done (Some n) s2.
Proof.
  intros Hcall Hrun. apply get_or_assign_bound.
  eapply registry_run_binding; [done|]. by eapply get_or_assign_binds.
Qed.

(** UUID 1 gets id 1 from a fresh manager; after ids 1 and 2 have become
    tombstones and UUID 2 has been given an id, UUID 1 still gets 1. *)
Lemma get_or_assign_node_id_idempotent_witness :
  let s := fresh_manager empty_table in
  let s1 := set_next_assigned_id 2 (set_id_by_uuid (<[uuid_1 := 1]>) s) in
  let evs := [members_table_change (mk_sharded (sample_table [] [1; 2]) []);
              get_or_assign_call uuid_2] in
  ∃ s2, get_or_assign_node_id uuid_1 s = Done (Some 1) s1
        ∧ registry_run evs s1 = Some s2
        ∧ _id_by_uuid s2 !! uuid_2 = Some 3
        ∧ get_or_assign_node_id uuid_1 s2 = Done (Some 1) s2.
Proof.
  intros s s1 evs.
  assert (H1 : get_or_assign_node_id uuid_1 s = Done (Some 1) s1)
    by (by vm_compute).
  destruct (registry_run evs s1) as [s2|] eqn:Hrun; [|by vm_compute in Hrun].
  exists s2. split; [done|]. split; [done|]. split.
  - vm_compute in Hrun. injection Hrun as <-. by vm_compute.
  - exact (get_or_assign_node_id_idempotent s uuid_1 1 s1 evs s2 H1 Hrun).
Defined.

(** ** The registry over sequences of calls *)

Lemma registry_step_assigned_below_counter ev A s s' :
  assigned_below_counter A s →
  registry_step ev s = Some s' →
  assigned_below_counter (A ∪ newly_assigned ev s) s'.
Proof.
  intros (Hr & Hlt & Hinj) Hstep. unfold assigned_below_counter.
  destruct ev as [requested uuid | uuid | tables]; simpl in *.
  - (* try_register_node_id: the counter and the bindings made so far stay *)
    assert (Hkeep : ∀ u n, _id_by_uuid s !! u = Some n →
                           _id_by_uuid s' !! u = Some n).
    { intros u n. by apply (registry_step_binding
                              (try_register_call requested uuid)). }
    assert (Hback : ∀ u n, u ∈ A → _id_by_uuid s' !! u = Some n →
                           _id_by_uuid s !! u = Some n).
    { intros u n Hu Hn. destruct (Hlt u Hu) as (m & Hm & _).
      rewrite (Hkeep _ _ Hm) in Hn. congruence. }
    assert (Hnext : _next_assigned_id s' = _next_assigned_id s).
    { destruct (decide (requested = unassigned_node_id)) as [->|Hne];
        [by rewrite try_register_unassigned in Hstep|].
      destruct (_id_by_uuid s !! uuid) as [bound|] eqn:Hl.
      - rewrite (try_register_known _ _ _ _ Hne Hl) in Hstep.
        by injection Hstep as <-.
      - rewrite (try_register_unknown _ _ _ Hne Hl) in Hstep.
        by injection Hstep as <-. }
    rewrite Hnext. split; [done|]. split.
    + intros u [Hu|Hu]%elem_of_union; [|by apply elem_of_empty in Hu].
      destruct (Hlt u Hu) as (n & Hn & ?). exists n. split; [eauto | done].
    + intros u1 u2 n [H1|H1]%elem_of_union [H2|H2]%elem_of_union;
        try (by apply elem_of_empty in H1); try (by apply elem_of_empty in H2).
      intros Hn1 Hn2. eapply Hinj; eauto.
  - (* get_or_assign_node_id *)
    destruct (get_or_assign_node_id uuid s) as [r s1|] eqn:Hcall; [|done].
    injection Hstep as <-.
    destruct (get_or_assign_cases _ _ _ _ (proj2 Hr) Hcall)
      as [[-> (id & -> & Hid)] | [Hnone [(m & -> & Hm & ->) | [-> ->]]]].
    + rewrite Hid. rewrite union_empty_r_L. done.
    + rewrite Hnone.
      assert (HuA : uuid ∉ A).
      { intros Hu. destruct (Hlt _ Hu) as (n & Hn & _). congruence. }
      split; [simpl; lia|]. split; simpl.
      * intros u [Hu|Hu%elem_of_singleton]%elem_of_union.
        -- destruct (Hlt u Hu) as (n & Hn & ?). exists n.
           rewrite lookup_insert_ne by congruence. split; [done | lia].
        -- subst u. exists m. rewrite lookup_insert_eq. split; [done | lia].
      * intros u1 u2 n [H1|H1%elem_of_singleton]%elem_of_union
                       [H2|H2%elem_of_singleton]%elem_of_union; subst.
        -- rewrite !lookup_insert_ne by congruence. by apply Hinj.
        -- rewrite lookup_insert_eq, lookup_insert_ne by congruence.
           intros Hn1 [= <-]. destruct (Hlt _ H1) as (n & Hn & ?).
           assert (n = m) by congruence. lia.
        -- rewrite lookup_insert_eq, lookup_insert_ne by congruence.
           intros [= <-] Hn2. destruct (Hlt _ H2) as (n & Hn & ?).
           assert (n = m) by congruence. lia.
        -- done.
    + rewrite Hnone, union_empty_r_L.
      split; [simpl; lia|]. split; simpl; [|done].
      intros u Hu. destruct (Hlt u Hu) as (n & Hn & ?). exists n.
      split; [done | lia].
  - injection Hstep as <-. by rewrite union_empty_r_L.
Qed.

Lemma registry_run_assigned_below_counter evs A s s' :
  assigned_below_counter A s →
  registry_run evs s = Some s' →
  assigned_below_counter (A ∪ assigned_uuids evs s) s'.
Proof.
  revert A s. induction evs as [|ev evs IH]; intros A s Hinv Hrun;
    simpl in *.
  - injection Hrun as <-. by rewrite union_empty_r_L.
  - destruct (registry_step ev s) as [s1|] eqn:Hstep; [|done].
    rewrite (assoc_L (∪)). apply IH; [|done].
    by apply registry_step_assigned_below_counter.
Qed.

(** Without calls of [try_register_node_id], every bound UUID was bound
    by [get_or_assign_node_id]. *)
Lemma registry_run_all_assigned evs A s s' :
  forallb (fun ev => negb (is_try_register ev)) evs = true →
  (∀ u, is_Some (_id_by_uuid s !! u) → u ∈ A) →
  registry_run evs s = Some s' →
  ∀ u, is_Some (_id_by_uuid s' !! u) → u ∈ A ∪ assigned_uuids evs s.
Proof.
  revert A s. induction evs as [|ev evs IH]; intros A s Hevs HA Hrun;
    simpl in *.
  - injection Hrun as <-. intros u Hu. apply elem_of_union_l. by apply HA.
  - apply andb_true_iff in Hevs as [Hev Hevs].
    destruct (registry_step ev s) as [s1|] eqn:Hstep; [|done].
    rewrite (assoc_L (∪)). apply (IH _ s1); [done | | done].
    intros u Hu.
    destruct ev as [requested uuid | uuid | tables]; simpl in *; [done | |].
    + destruct (get_or_assign_node_id uuid s) as [r s2|] eqn:Hcall; [|done].
      injection Hstep as <-.
      destruct (_id_by_uuid s !! uuid) as [id|] eqn:Hlook.
      * rewrite (get_or_assign_bound _ _ _ Hlook) in Hcall.
        injection Hcall as <- <-. rewrite union_empty_r_L. by apply HA.
      * rewrite (get_or_assign_unbound _ _ Hlook) in Hcall.
        destruct (skip_used_ids _ _) as [m|m].
        { injection Hcall as <- <-. rewrite union_empty_r_L. by apply HA. }
        destruct (m =? INT_MAX); injection Hcall as <- <-.
        { rewrite union_empty_r_L. by apply HA. }
        simpl in Hu. destruct (decide (uuid = u)) as [->|Hne].
        -- apply elem_of_union_r. by apply elem_of_singleton.
        -- rewrite lookup_insert_ne in Hu by done.
           apply elem_of_union_l. by apply HA.
    + injection Hstep as <-. rewrite union_empty_r_L. by apply HA.
Qed.

(** C2, as amended. After any sequence of [try_register_node_id] and
    [get_or_assign_node_id] calls on a new manager, with the members
    tables changing in between: every UUID is bound to at most one id;
    the counter lies between 1 and [INT_MAX]; the UUIDs that
    [get_or_assign_node_id] has bound have ids below the counter, no two
    of them the same; and when the sequence has no
    [try_register_node_id] call, no two UUIDs at all are bound to the
    same id and the counter exceeds every bound id. *)
Theorem registry_invariant self tables connections evs s :
  let s0 := new_members_manager self tables connections in
  registry_run evs s0 = Some s →
  (∀ u n m, _id_by_uuid s !! u = Some n → _id_by_uuid s !! u = Some m → n = m)
  ∧ 1 ≤ _next_assigned_id s ≤ INT_MAX
  ∧ (∀ u, u ∈ assigned_uuids evs s0 →
          ∃ n, _id_by_uuid s !! u = Some n ∧ n < _next_assigned_id s)
  ∧ (∀ u1 u2 n, u1 ∈ assigned_uuids evs s0 → u2 ∈ assigned_uuids evs s0 →
                _id_by_uuid s !! u1 = Some n →
                _id_by_uuid s !! u2 = Some n → u1 = u2)
  ∧ (forallb (fun ev => negb (is_try_register ev)) evs = true →
     (∀ u1 u2 n, _id_by_uuid s !! u1 = Some n →
                 _id_by_uuid s !! u2 = Some n → u1 = u2)
     ∧ (∀ u n, _id_by_uuid s !! u = Some n → n < _next_assigned_id s)).
Proof.
  intros s0 Hrun.
  assert (H0 : assigned_below_counter ∅ s0).
  { split; [unfold INT_MAX; simpl; lia|].
    split; [by intros u ?%elem_of_empty | by intros u1 u2 n ?%elem_of_empty]. }
  pose proof (registry_run_assigned_below_counter evs ∅ s0 s H0 Hrun)
    as (Hr & Hlt & Hinj).
  rewrite union_empty_l_L in Hlt, Hinj.
  split; [congruence|]. split; [done|]. split; [|split; [done|]].
  - intros u Hu. destruct (Hlt u Hu) as (n & Hn & ?). exists n.
    split; [done | lia].
  - intros Hevs.
    assert (Hall : ∀ u, is_Some (_id_by_uuid s !! u) →
                        u ∈ assigned_uuids evs s0).
    { intros u Hu.
      pose proof (registry_run_all_assigned evs ∅ s0 s Hevs) as H.
      rewrite union_empty_l_L in H. apply H; [|done..].
      intros u'. simpl. rewrite lookup_empty. by intros [? ?]. }
    split.
    + intros u1 u2 n H1 H2. apply (Hinj u1 u2 n); eauto.
    + intros u n Hu. destruct (Hlt u) as (m & Hm & ?); [eauto|].
      assert (m = n) by congruence. lia.
Qed.

(** UUID 1 registers id 5 by itself, UUIDs 2 and 3 are given ids 1 and 2. *)
Lemma registry_invariant_witness :
  let evs := [try_register_call 5 uuid_1; get_or_assign_call uuid_2;
              get_or_assign_call (uuid_of Byte.x03)] in
  ∃ s, registry_run evs
         (new_members_manager self_broker (mk_sharded empty_table []) ∅)
       = Some s
       ∧ _id_by_uuid s !! uuid_1 = Some 5
       ∧ _id_by_uuid s !! uuid_2 = Some 1
       ∧ _id_by_uuid s !! uuid_of Byte.x03 = Some 2
       ∧ 1 ≤ _next_assigned_id s ≤ INT_MAX.
Proof.
  intros evs.
  destruct (registry_run evs
              (new_members_manager self_broker (mk_sharded empty_table []) ∅))
    as [s|] eqn:Hrun; [|by vm_compute in Hrun].
  exists s. split; [done|].
  destruct (registry_invariant _ _ _ evs s Hrun) as (_ & Hr & _).
  vm_compute in Hrun. injection Hrun as <-.
  split; [by vm_compute|]. split; [by vm_compute|]. split; [by vm_compute|].
  done.
Defined.

(** C2 as stated fails: registering id 5 for two UUIDs binds both to 5,
    and the counter is still 1. *)
Lemma registry_invariant_counterexample :
  ¬ (∀ evs s,
       registry_run evs (fresh_manager empty_table) = Some s →
       (∀ u1 u2 n, _id_by_uuid s !! u1 = Some n →
                   _id_by_uuid s !! u2 = Some n → u1 = u2)
       ∧ (∀ u n, _id_by_uuid s !! u = Some n → n < _next_assigned_id s)
       ∧ (∀ n, is_Some (removed_nodes (local (_members_table s)) !! n) →
               n < _next_assigned_id s)).
Proof.
  intros H.
  destruct (H [try_register_call 5 uuid_1; try_register_call 5 uuid_2] _
              eq_refl) as [Hinj _].
  by specialize (Hinj uuid_1 uuid_2 5 eq_refl eq_refl).
Qed.

(** The counter need not exceed a tombstone: the scan stops at the first
    free id even when a larger id is a tombstone. *)
Example counter_below_tombstone :
  get_or_assign_node_id uuid_1 (fresh_manager (sample_table [] [5]))
  = Done (Some 1)
      (set_next_assigned_id 2
         (set_id_by_uuid (<[uuid_1 := 1]>)
            (fresh_manager (sample_table [] [5])))).
Proof. by vm_compute. Qed.

(** ** [apply_initial_node_uuid_map] *)

(** The seeding loop: [INT_MAX] as soon as an id is [INT_MAX]; otherwise
    the largest of the old counter and the successors of the ids. *)
Lemma seed_next_assigned_id_spec ids next :
  let r := seed_next_assigned_id ids next in
  (INT_MAX ∈ ids → r = INT_MAX)
  ∧ (INT_MAX ∉ ids →
     next ≤ r ∧ (∀ id, id ∈ ids → id + 1 ≤ r)
     ∧ (r = next ∨ ∃ id, id ∈ ids ∧ r = id + 1)).
Proof.
  revert next. induction ids as [|id ids IH]; intros next; simpl.
  - split; [by intros ?%elem_of_nil|]. intros _.
    split; [lia|]. split; [by intros ? ?%elem_of_nil | by left].
  - destruct (id =? INT_MAX) eqn:E.
    + apply Z.eqb_eq in E as ->. split; [done|].
      intros Hnot. exfalso. apply Hnot. by left.
    + apply Z.eqb_neq in E. destruct (IH (Z.max next (id + 1))) as [H1 H2].
      split.
      * intros [?|?]%elem_of_cons; [done | by apply H1].
      * intros Hnot. destruct H2 as (Hle & Hall & Hex).
        { intros ?. apply Hnot. by right. }
        split; [lia|]. split.
        -- intros k [->|?]%elem_of_cons; [lia | by apply Hall].
        -- destruct Hex as [Hr | (k & Hk & Hr)].
           ++ destruct (Z.max_spec next (id + 1)) as [[_ Hm]|[_ Hm]].
              ** right. exists id. split; [by left | congruence].
              ** left. congruence.
           ++ right. exists k. split; [by right | done].
Qed.

Lemma elem_of_map_ids (m : gmap (list Byte.byte) Z) id :
  id ∈ (map_to_list m).*2 ↔ ∃ u, m !! u = Some id.
Proof.
  rewrite list_elem_of_fmap. split.
  - intros ([u n] & -> & H%elem_of_map_to_list). eauto.
  - intros [u H]. exists (u, id). split; [done|].
    by apply elem_of_map_to_list.
Qed.

(** C6, as amended. [apply_initial_node_uuid_map] dies when the registry
    already has a binding. On an empty registry it installs the map and
    sets the counter to [INT_MAX] when some id of the map is [INT_MAX],
    and otherwise to the largest of the old counter (1 after
    construction) and the successors of the ids of the map. *)
Theorem apply_initial_node_uuid_map_spec s m :
  (_id_by_uuid s ≠ ∅ → apply_initial_node_uuid_map m s = Abort)
  ∧ (_id_by_uuid s = ∅ →
     ∃ next,
       apply_initial_node_uuid_map m s =
       Done tt (set_id_by_uuid (fun _ => m) (set_next_assigned_id next s))
       ∧ ((∃ u, m !! u = Some INT_MAX) → next = INT_MAX)
       ∧ ((∀ u, m !! u ≠ Some INT_MAX) →
          _next_assigned_id s ≤ next
          ∧ (∀ u id, m !! u = Some id → id + 1 ≤ next)
          ∧ (next = _next_assigned_id s
             ∨ ∃ u id, m !! u = Some id ∧ next = id + 1))).
Proof.
  unfold apply_initial_node_uuid_map, bind, get, vassert, modify. split.
  - intros Hne. by rewrite bool_decide_eq_false_2.
  - intros Hempty. rewrite bool_decide_eq_true_2 by done.
    eexists. split; [reflexivity|].
    destruct (seed_next_assigned_id_spec (map_to_list m).*2
                (_next_assigned_id s)) as [H1 H2].
    split.
    + intros Hmax. by apply H1, elem_of_map_ids.
    + intros Hnone. destruct H2 as (Hle & Hall & Hex).
      { intros [u Hu]%elem_of_map_ids. by apply (Hnone u). }
      split; [done|]. split.
      * intros u id Hu. apply Hall, elem_of_map_ids. eauto.
      * destruct Hex as [?|(id & [u Hu]%elem_of_map_ids & ?)];
          [by left | right; eauto].
Qed.

(** A new manager loads [{uuid 1 ↦ 3, uuid 2 ↦ 7}] and counts from 8;
    the loaded manager refuses another load. *)
Lemma apply_initial_node_uuid_map_spec_witness :
  let m : gmap (list Byte.byte) Z := {[ uuid_1 := 3; uuid_2 := 7 ]} in
  let s := fresh_manager empty_table in
  let s' := set_id_by_uuid (fun _ => m) (set_next_assigned_id 8 s) in
  _id_by_uuid s = ∅
  ∧ apply_initial_node_uuid_map m s = Done tt s'
  ∧ _id_by_uuid s' ≠ ∅
  ∧ apply_initial_node_uuid_map m s' = Abort.
Proof.
  intros m s s'. split; [done|]. split; [by vm_compute|].
  assert (Hne : _id_by_uuid s' ≠ ∅).
  { intros H. assert (Hl : _id_by_uuid s' !! uuid_1 = Some 3) by done.
    rewrite H in Hl. by rewrite lookup_empty in Hl. }
  split; [done|].
  exact (proj1 (apply_initial_node_uuid_map_spec s' m) Hne).
Defined.

(** C6 as stated fails: after a first load of an empty map a second load
    is accepted. *)
Lemma apply_initial_node_uuid_map_counterexample :
  ¬ (∀ m1 m2 s1,
       apply_initial_node_uuid_map m1 (fresh_manager empty_table)
       = Done tt s1 →
       apply_initial_node_uuid_map m2 s1 = Abort).
Proof.
  intros H.
  specialize (H ∅ {[ uuid_1 := 3 ]} _ eq_refl). by vm_compute in H.
Qed.

(** The asymmetry at [INT_MAX]: the counter becomes [INT_MAX] itself,
    not its successor. *)
Example apply_initial_node_uuid_map_int_max :
  apply_initial_node_uuid_map {[ uuid_1 := INT_MAX ]}
    (fresh_manager empty_table)
  = Done tt (set_id_by_uuid (fun _ => {[ uuid_1 := INT_MAX ]})
               (set_next_assigned_id INT_MAX (fresh_manager empty_table))).
Proof. by vm_compute. Qed.

(** ** Validation of configuration updates *)

Lemma shared_endpoint_spec (mine theirs : list broker_endpoint) :
  is_Some (find (fun current_ep =>
                   existsb (fun ep => bool_decide (current_ep = ep)) theirs)
             mine)
  ↔ ∃ ep, ep ∈ mine ∧ ep ∈ theirs.
Proof.
  split.
  - intros [ep Hfind]. apply find_some in Hfind as [Hin Hex].
    apply existsb_exists in Hex as (ep' & Hin' & Heq).
    apply bool_decide_eq_true in Heq as <-.
    exists ep. by rewrite !list_elem_of_In.
  - intros (ep & Hin & Hin').
    destruct (find _ mine) as [x|] eqn:Hfind; [eauto|].
    apply list_elem_of_In in Hin.
    pose proof (find_none _ _ Hfind ep Hin) as Hnone. simpl in Hnone.
    assert (existsb (fun ep0 => bool_decide (ep = ep0)) theirs = true);
      [|congruence].
    apply existsb_exists. exists ep. split; [by apply list_elem_of_In|].
    by apply bool_decide_eq_true.
Qed.

Lemma check_one_spec to_update id current :
  is_Some (check_one to_update (id, current))
  ↔ conflicts_with to_update id current.
Proof.
  unfold check_one, conflicts_with.
  destruct (id =? broker_id to_update) eqn:Eid.
  - apply Z.eqb_eq in Eid.
    destruct (_ >? _) eqn:Ec.
    + apply Z.gtb_gt in Ec. split; [|eauto]. intros _. left. split; [done|lia].
    + split; [by intros [? ?]|].
      intros [[_ Hlt] | [Hne _]]; [|done].
      pose proof (Zgt_cases (cores (properties (nm_broker current)))
                    (cores (properties to_update))) as H.
      rewrite Ec in H. lia.
  - apply Z.eqb_neq in Eid. case_bool_decide as Haddr.
    + split; [|eauto]. intros _. right. split; [done|]. by left.
    + pose proof (shared_endpoint_spec
                    (kafka_advertised_listeners (nm_broker current))
                    (kafka_advertised_listeners to_update)) as Hshared.
      destruct (find _ _) as [ep|].
      * split; [|eauto]. intros _. right. split; [done|]. right.
        apply Hshared. eauto.
      * split; [by intros [? ?]|].
        intros [[? _] | [_ [? | Hex]]]; [done | done |].
        apply Hshared in Hex. by destruct Hex.
Qed.

Lemma first_conflict_spec to_update entries :
  is_Some (first_conflict to_update entries)
  ↔ ∃ e, e ∈ entries ∧ is_Some (check_one to_update e).
Proof.
  induction entries as [|e rest IH]; simpl.
  - split; [by intros [? ?] | by intros (? & ?%elem_of_nil & _)].
  - destruct (check_one to_update e) as [c|] eqn:He.
    + split; [|eauto]. intros _. exists e. split; [by left|].
      rewrite He. eauto.
    + rewrite IH. split.
      * intros (e' & Hin & H). exists e'. split; [by right | done].
      * intros (e' & [->|Hin]%elem_of_cons & H); [|eauto].
        rewrite He in H. by destruct H.
Qed.

(** [check_result_configuration] reports a conflict exactly when some
    entry of the table stands in the way. *)
Lemma check_result_configuration_spec current_brokers to_update :
  is_Some (check_result_configuration current_brokers to_update)
  ↔ ∃ id current, current_brokers !! id = Some current
                  ∧ conflicts_with to_update id current.
Proof.
  unfold check_result_configuration. rewrite first_conflict_spec. split.
  - intros ([id current] & Hin%elem_of_map_to_list & H%check_one_spec). eauto.
  - intros (id & current & Hin & H). exists (id, current).
    split; [by apply elem_of_map_to_list | by apply check_one_spec].
Qed.

(** C7. A configuration-update request aimed at this node is answered
    with [invalid_configuration_update] exactly when some broker of the
    members table has the id of the updated broker and more cores than
    the update gives it, or has another id and shares its RPC address or
    one of its advertised Kafka endpoints (name included) with the
    updated broker. *)
Theorem handle_configuration_update_request_invalid
    raft0 update_rpc req s :
  target_node req = broker_id (_self s) →
  (∃ s', handle_configuration_update_request raft0 update_rpc req s
         = Done (error (cluster_error invalid_configuration_update)) s')
  ↔ ∃ id current,
      nodes (local (_members_table s)) !! id = Some current
      ∧ conflicts_with (update_node req) id current.
Proof.
  intros Htarget. rewrite <- check_result_configuration_spec.
  unfold handle_configuration_update_request, bind, get, modify, ret.
  rewrite Htarget, Z.eqb_refl. simpl.
  destruct (check_result_configuration _ _) as [c|].
  { split; eauto. }
  split; [|by intros [? ?]]. intros [s' H]. exfalso.
  destruct (get_leader_id raft0) as [leader_id|]; [|discriminate H].
  destruct (leader_id =? broker_id (_self s)).
  - destruct (negb _); discriminate H.
  - destruct (get_node_metadata_ref _ _) as [leader|]; [|discriminate H].
    destruct (update_rpc _ _ _); discriminate H.
Qed.

(** This node runs with 8 cores; an update of its own configuration to
    4 cores is refused. *)
Lemma handle_configuration_update_request_invalid_witness :
  let s := fresh_manager (sample_table [self_broker] []) in
  let req := mk_configuration_update_request
               (sample_broker 0 4 33145 9092) 0 in
  target_node req = broker_id (_self s)
  ∧ ∃ s', handle_configuration_update_request
            (sample_raft0 (simple_configuration [self_broker]))
            unreachable_peer req s
          = Done (error (cluster_error invalid_configuration_update)) s'.
Proof.
  intros s req. split; [done|].
  apply (proj2 (handle_configuration_update_request_invalid
                  (sample_raft0 (simple_configuration [self_broker]))
                  unreachable_peer req s eq_refl)).
  exists 0, (sample_entry self_broker). split; [by vm_compute|].
  left. split; [done|]. simpl. lia.
Defined.

(** ** Application of commands *)

Lemma find_learner id (vns : list vnode) vn :
  vn ∈ vns → vnode_id vn = id →
  is_Some (find (fun vn => vnode_id vn =? id) vns).
Proof.
  intros Hin Hid.
  destruct (find _ vns) as [x|] eqn:Hfind; [eauto|].
  apply list_elem_of_In in Hin.
  pose proof (find_none _ _ Hfind vn Hin) as H. simpl in H.
  apply Z.eqb_neq in H. done.
Qed.

(** C8. While the controller group is in a joint configuration whose
    old configuration has [id] among its learners, a
    [recommission_node(id)] command is answered with
    [invalid_node_operation] and the manager is left as it was: nothing
    is dispatched to the members tables. *)
Theorem apply_update_recommission_demoted_voter
    raft0 members_table_apply update_brokers update_offset id old vn s :
  get_state (config raft0) = joint →
  old_config (config raft0) = Some old →
  vn ∈ learners old →
  vnode_id vn = id →
  apply_update raft0 members_table_apply update_brokers
    (node_management_cmd update_offset (recommission_node_cmd id)) s
  = Done (cluster_error invalid_node_operation) s.
Proof.
  intros Hjoint Hold Hin Hid. simpl. rewrite Hjoint, Hold.
  by destruct (find_learner id _ vn Hin Hid) as [x ->].
Qed.

Lemma apply_update_recommission_demoted_voter_witness :
  let old := mk_group_nodes [mk_vnode 0 0] [mk_vnode 1 0] in
  let cfg := mk_group_configuration
               [self_broker; sample_broker 1 4 33146 9093] joint (Some old) in
  let s := fresh_manager
             (sample_table [self_broker; sample_broker 1 4 33146 9093] []) in
  get_state (config (sample_raft0 cfg)) = joint
  ∧ old_config (config (sample_raft0 cfg)) = Some old
  ∧ mk_vnode 1 0 ∈ learners old
  ∧ apply_update (sample_raft0 cfg) forgetful_apply (fun _ _ mt => mt)
      (node_management_cmd 42 (recommission_node_cmd 1)) s
    = Done (cluster_error invalid_node_operation) s.
Proof.
  intros old cfg s. split; [done|]. split; [done|].
  assert (Hin : mk_vnode 1 0 ∈ learners old) by (simpl; by left).
  split; [done|].
  exact (apply_update_recommission_demoted_voter (sample_raft0 cfg)
           forgetful_apply (fun _ _ mt => mt) 42 1 old (mk_vnode 1 0) s
           eq_refl eq_refl Hin eq_refl).
Defined.


(** ** Raft configuration updates *)

Lemma bind_modify {B} f (k : unit → M B) s :
  bind (modify f) k s = k tt (f s).
Proof. reflexivity. Qed.

Lemma bind_get {B} (k : members_manager → M B) s : bind get k s = k s s.
Proof. reflexivity. Qed.

Lemma push_all_added (bs : list broker) update_offset s :
  foldr (fun b k =>
           push_eventually
             (mk_node_update (broker_id b) added update_offset) ;;; k)
    (ret tt) bs s
  = Done tt
      (set_update_queue
         (fun q => q ++ ((fun b => mk_node_update (broker_id b) added
                                     update_offset) <$> bs)) s).
Proof.
  revert s. induction bs as [|b bs IH]; intros s; simpl.
  - unfold ret. f_equal. destruct s; unfold set_update_queue; simpl.
    by rewrite app_nil_r.
  - unfold bind, push_eventually, modify. rewrite IH. f_equal.
    destruct s; unfold set_update_queue; simpl. by rewrite <- app_assoc.
Qed.

(** A configuration at an offset above [_last_connection_update_offset]:
    the tables of all shards are updated, the connection cache is
    reconciled with the changed nodes, the offset is recorded and every
    added broker is announced on the update queue. *)
Lemma handle_raft0_cfg_update_newer update_brokers cfg update_offset s :
  _last_connection_update_offset s < update_offset →
  ∃ s', handle_raft0_cfg_update update_brokers cfg update_offset s
        = Done tt s'
    ∧ _last_connection_update_offset s' = update_offset
    ∧ _connection_cache s'
      = update_connections (broker_id (_self s))
          (calculate_changed_nodes s cfg) (_connection_cache s)
    ∧ _update_queue s'
      = _update_queue s
        ++ ((fun b => mk_node_update (broker_id b) added update_offset)
              <$> cn_added (calculate_changed_nodes s cfg)).
Proof.
  intros Hlt. unfold handle_raft0_cfg_update.
  rewrite bind_modify, bind_get, bind_modify, bind_get.
  destruct (update_offset <=? _) eqn:E;
    [simpl in E; apply Z.leb_le in E; lia|].
  rewrite !bind_modify, push_all_added. eexists. split; [reflexivity|]. done.
Qed.

(** A configuration at an offset not above
    [_last_connection_update_offset]: the function returns after the
    tables have been updated; cache, offset and update queue are as
    before. *)
Lemma handle_raft0_cfg_update_stale update_brokers cfg update_offset s :
  update_offset ≤ _last_connection_update_offset s →
  ∃ s', handle_raft0_cfg_update update_brokers cfg update_offset s
        = Done tt s'
    ∧ _last_connection_update_offset s' = _last_connection_update_offset s
    ∧ _connection_cache s' = _connection_cache s
    ∧ _update_queue s' = _update_queue s.
Proof.
  intros Hle. unfold handle_raft0_cfg_update.
  rewrite bind_modify, bind_get, bind_modify, bind_get.
  destruct (update_offset <=? _) eqn:E;
    [|simpl in E; apply Z.leb_gt in E; lia].
  eexists. split; [reflexivity|]. done.
Qed.

(** [_last_connection_update_offset] never goes down. *)
Lemma handle_raft0_cfg_update_offset_monotone
    update_brokers cfg update_offset s :
  ∃ s', handle_raft0_cfg_update update_brokers cfg update_offset s
        = Done tt s'
    ∧ _last_connection_update_offset s ≤ _last_connection_update_offset s'.
Proof.
  destruct (decide (update_offset ≤ _last_connection_update_offset s)) as [H|H].
  - destruct (handle_raft0_cfg_update_stale update_brokers cfg _ _ H)
      as (s' & Hs' & Hlast & _). exists s'. split; [done | lia].
  - destruct (handle_raft0_cfg_update_newer update_brokers cfg update_offset s)
      as (s' & Hs' & Hlast & _); [lia|]. exists s'. split; [done | lia].
Qed.

(** C5, the code at an input where it departs from the claim. The
    manager has reconciled its connections at offset 10 and its members
    table is empty. A configuration with a broker 1 arrives at offset 5:
    broker 1 is an added node, and yet nothing is put on the update
    queue, because the function returns before the loop that announces
    the added nodes. *)
Theorem handle_raft0_cfg_update_stale_drops_added :
  let s := set_last_connection_update_offset 10 (fresh_manager empty_table) in
  let cfg := simple_configuration [sample_broker 1 4 33146 9093] in
  cn_added (calculate_changed_nodes s cfg) = [sample_broker 1 4 33146 9093]
  ∧ ∀ update_brokers,
      ∃ s', handle_raft0_cfg_update update_brokers cfg 5 s = Done tt s'
            ∧ _update_queue s' = []
            ∧ mk_node_update 1 added 5 ∉ _update_queue s'.
Proof.
  intros s cfg. split; [by vm_compute|]. intros update_brokers.
  destruct (handle_raft0_cfg_update_stale update_brokers cfg 5 s)
    as (s' & Hs' & _ & _ & Hq); [simpl; lia|].
  exists s'. split; [done|]. rewrite Hq. split; [done|]. simpl.
  apply not_elem_of_nil.
Qed.

(** ** Join requests *)

(** C1, as amended. On the leader, with node id assignment active, a
    join request that asks for a node id and carries a 16-byte UUID
    bound to a tombstoned id is answered with [success = false] and
    [unassigned_node_id], and nothing changes. *)
Theorem handle_join_request_tombstoned
    raft0 replicate join_rpc update_rpc req bound s :
  is_elected_leader raft0 = true →
  length (node_uuid req) = node_uuid_length →
  0 ≤ broker_id (node req) →
  _id_by_uuid s !! node_uuid req = Some bound →
  is_Some (get_removed_node_metadata_ref (local (_members_table s)) bound) →
  handle_join_request raft0 true replicate join_rpc update_rpc req s
  = Done (value (mk_join_node_reply false unassigned_node_id)) s.
Proof.
  intros Hleader Hlen Hid Hbound [meta Htomb].
  unfold handle_join_request.
  assert (Huuid : bool_decide (node_uuid req = []) = false).
  { apply bool_decide_eq_false. intros E. by rewrite E in Hlen. }
  rewrite Huuid, Hlen, Hleader. simpl.
  replace (0 <=? broker_id (node req)) with true
    by (symmetry; by apply Z.leb_le).
  simpl. unfold join_registration, bind, get, ret. rewrite Hbound.
  destruct (broker_id (node req) =? bound); simpl; [|done].
  by rewrite Htomb.
Qed.

Lemma handle_join_request_tombstoned_witness :
  let raft0 := sample_raft0 (simple_configuration [self_broker]) in
  let req := mk_join_node_request 7 uuid_1 (sample_broker 1 4 33146 9093) in
  is_elected_leader raft0 = true
  ∧ length (node_uuid req) = node_uuid_length
  ∧ 0 ≤ broker_id (node req)
  ∧ _id_by_uuid after_decommission !! node_uuid req = Some 1
  ∧ is_Some (get_removed_node_metadata_ref
               (local (_members_table after_decommission)) 1)
  ∧ handle_join_request raft0 true never_replicated unreachable_peer
      unreachable_peer req after_decommission
    = Done (value (mk_join_node_reply false unassigned_node_id))
        after_decommission.
Proof.
  intros raft0 req.
  assert (H1 : length (node_uuid req) = node_uuid_length) by done.
  assert (H2 : 0 ≤ broker_id (node req)) by (simpl; lia).
  assert (H3 : _id_by_uuid after_decommission !! node_uuid req = Some 1)
    by done.
  assert (H4 : is_Some (get_removed_node_metadata_ref
                          (local (_members_table after_decommission)) 1))
    by (by vm_compute; eauto).
  repeat (split; [done|]).
  exact (handle_join_request_tombstoned raft0 never_replicated
           unreachable_peer unreachable_peer req 1 after_decommission
           eq_refl H1 H2 H3 H4).
Defined.

(** C1 as stated fails: a request without a node id whose UUID is bound
    to the tombstoned id 1 is answered with [success = true] and id 1. *)
Lemma handle_join_request_tombstoned_counterexample :
  ¬ (∀ raft0 active replicate join_rpc update_rpc req bound s,
       _id_by_uuid s !! node_uuid req = Some bound →
       is_Some (get_removed_node_metadata_ref
                  (local (_members_table s)) bound) →
       ∃ s', handle_join_request raft0 active replicate join_rpc update_rpc
               req s
             = Done (value (mk_join_node_reply false unassigned_node_id)) s').
Proof.
  intros H.
  destruct (H (sample_raft0 (simple_configuration [self_broker])) true
              never_replicated unreachable_peer unreachable_peer
              (mk_join_node_request 7 uuid_1
                 (sample_broker unassigned_node_id 4 33146 9093))
              1 after_decommission) as [s' Hs'].
  - done.
  - by vm_compute; eauto.
  - by vm_compute in Hs'.
Qed.

(** The reply in that case. *)
Example handle_join_request_lookup_of_tombstoned :
  handle_join_request (sample_raft0 (simple_configuration [self_broker])) true
    never_replicated unreachable_peer unreachable_peer
    (mk_join_node_request 7 uuid_1
       (sample_broker unassigned_node_id 4 33146 9093))
    after_decommission
  = Done (value (mk_join_node_reply true 1)) after_decommission.
Proof. by vm_compute. Qed.

(** ** Scenarios *)

(** A node without an id asks the seed of a new cluster to join: its
    UUID is registered and it is told id 1. *)
Example scenario_fresh_join_assigns_id :
  handle_join_request seed_raft0 true (replicate_locally seed_raft0)
    unreachable_peer unreachable_peer
    (mk_join_node_request 7 uuid_1
       (sample_broker unassigned_node_id 4 33146 9093))
    seed_manager
  = Done (value (mk_join_node_reply true 1))
      (set_next_assigned_id 2
         (set_id_by_uuid (<[uuid_1 := 1]>) seed_manager)).
Proof. by vm_compute. Qed.

(** It comes back with id 1 and is added to the controller group; the
    seed opens a connection to it. *)
Example scenario_fresh_join_adds_member :
  handle_join_request seed_raft0 true (replicate_locally seed_raft0)
    unreachable_peer unreachable_peer
    (mk_join_node_request 7 uuid_1 (sample_broker 1 4 33146 9093))
    (set_next_assigned_id 2 (set_id_by_uuid (<[uuid_1 := 1]>) seed_manager))
  = Done (value (mk_join_node_reply true 1))
      (set_connection_cache (<[1 := mk_address "10.0.0.1" 33146]>)
         (set_next_assigned_id 2
            (set_id_by_uuid (<[uuid_1 := 1]>) seed_manager))).
Proof. by vm_compute. Qed.

(** The same UUID asking for id 2 is turned away and nothing changes. *)
Example scenario_duplicate_uuid_wrong_id :
  handle_join_request seed_raft0 true (replicate_locally seed_raft0)
    unreachable_peer unreachable_peer
    (mk_join_node_request 7 uuid_1 (sample_broker 2 4 33146 9093))
    (set_next_assigned_id 2 (set_id_by_uuid (<[uuid_1 := 1]>) seed_manager))
  = Done (value (mk_join_node_reply false unassigned_node_id))
      (set_next_assigned_id 2 (set_id_by_uuid (<[uuid_1 := 1]>) seed_manager)).
Proof. by vm_compute. Qed.

(** A configuration above the recorded offset announces its added
    brokers. *)
Example scenario_new_configuration_announces_added :
  ∃ s', handle_raft0_cfg_update (fun _ _ mt => mt)
          (simple_configuration [self_broker; sample_broker 1 4 33146 9093])
          12 (set_last_connection_update_offset 10 seed_manager)
        = Done tt s'
        ∧ _update_queue s' = [mk_node_update 1 added 12]
        ∧ _last_connection_update_offset s' = 12
        ∧ _connection_cache s' !! 1 = Some (mk_address "10.0.0.1" 33146).
Proof. eexists. split; [by vm_compute|]. by vm_compute. Qed.

(** The id space is used up: with 2147483646 a member and the counter
    there, no id is assigned and the counter stops at [INT_MAX]. *)
Example scenario_ids_exhausted :
  let s := set_next_assigned_id (INT_MAX - 1)
             (fresh_manager
                (sample_table [sample_broker (INT_MAX - 1) 1 1 1] [])) in
  get_or_assign_node_id uuid_1 s = Done None (set_next_assigned_id INT_MAX s)
  ∧ apply_update seed_raft0 forgetful_apply (fun _ _ mt => mt)
      (node_management_cmd 9 (register_node_uuid_cmd uuid_1 None)) s
    = Done (cluster_error invalid_node_operation)
        (set_next_assigned_id INT_MAX s).
Proof. split; by vm_compute. Qed.

(** * Further properties *)

(** ** Changed nodes *)

Lemma contains_broker_spec cfg id :
  contains_broker cfg id = true ↔ ∃ b, b ∈ brokers cfg ∧ broker_id b = id.
Proof.
  unfold contains_broker. rewrite existsb_exists. split.
  - intros (b & Hin & Hid). exists b. rewrite list_elem_of_In.
    by apply Z.eqb_eq in Hid.
  - intros (b & Hin & Hid). exists b. rewrite <- list_elem_of_In.
    split; [done | by apply Z.eqb_eq].
Qed.

(** The loop over the brokers of the configuration. *)
Lemma changed_nodes_of_brokers mt (bs : list broker) ret0 :
  let ret1 :=
    foldl (fun ret cfg_broker =>
             match get_node_metadata_ref mt (broker_id cfg_broker) with
             | None =>
                 mk_changed_nodes (cn_added ret ++ [cfg_broker])
                   (cn_updated ret) (cn_removed ret)
             | Some n =>
                 if bool_decide (nm_broker n = cfg_broker) then ret
                 else mk_changed_nodes (cn_added ret)
                        (cn_updated ret ++ [cfg_broker]) (cn_removed ret)
             end) ret0 bs in
  (∀ b, b ∈ cn_added ret1 ↔
        b ∈ cn_added ret0
        ∨ (b ∈ bs ∧ get_node_metadata_ref mt (broker_id b) = None))
  ∧ (∀ b, b ∈ cn_updated ret1 ↔
          b ∈ cn_updated ret0
          ∨ (b ∈ bs ∧ ∃ n, get_node_metadata_ref mt (broker_id b) = Some n
                           ∧ nm_broker n ≠ b))
  ∧ cn_removed ret1 = cn_removed ret0.
Proof.
  revert ret0. induction bs as [|b0 bs IH]; intros ret0; simpl.
  - split; [|split; [|done]]; intros b; split; try tauto;
      intros [?|[?%elem_of_nil _]]; done.
  - destruct (IH (match get_node_metadata_ref mt (broker_id b0) with
                  | None =>
                      mk_changed_nodes (cn_added ret0 ++ [b0])
                        (cn_updated ret0) (cn_removed ret0)
                  | Some n =>
                      if bool_decide (nm_broker n = b0) then ret0
                      else mk_changed_nodes (cn_added ret0)
                             (cn_updated ret0 ++ [b0]) (cn_removed ret0)
                  end)) as (Ha & Hu & Hr). clear IH.
    destruct (get_node_metadata_ref mt (broker_id b0)) as [n|] eqn:Hl;
      [case_bool_decide as Heq|]; simpl in *.
    + split; [|split; [|done]]; intros b; [rewrite Ha | rewrite Hu];
        rewrite elem_of_cons.
      * split; [tauto|]. intros [?|[[->|?] Hn]]; [tauto | congruence | tauto].
      * split; [tauto|].
        intros [?|[[->|?] (n' & Hn' & Hne)]]; [tauto | | eauto 6].
        congruence.
    + split; [|split; [|done]]; intros b; [rewrite Ha | rewrite Hu];
        rewrite elem_of_cons.
      * split; [tauto|]. intros [?|[[->|?] Hn]]; [tauto | congruence | tauto].
      * rewrite elem_of_app, list_elem_of_singleton. split.
        -- intros [[?| ->]|[? ?]]; [tauto | | tauto].
           right. split; [by left|]. exists n. split; [done | congruence].
        -- intros [?|[[->|?] ?]]; tauto.
    + split; [|split; [|done]]; intros b; [rewrite Ha | rewrite Hu];
        rewrite elem_of_cons.
      * rewrite elem_of_app, list_elem_of_singleton. split.
        -- intros [[?| ->]|[? ?]]; [tauto | | tauto].
           right. split; [by left | done].
        -- intros [?|[[->|?] ?]]; tauto.
      * split; [tauto|].
        intros [?|[[->|?] (n' & Hn' & Hne)]]; [tauto | | eauto 6].
        congruence.
Qed.

(** The loop over the entries of the members table. *)
Lemma changed_nodes_of_entries cfg (entries : list (Z * node_metadata)) ret1 :
  let ret :=
    foldl (fun ret entry =>
             if contains_broker cfg entry.1 then ret
             else mk_changed_nodes (cn_added ret) (cn_updated ret)
                    (cn_removed ret ++ [entry.1]))
      ret1 entries in
  cn_added ret = cn_added ret1
  ∧ cn_updated ret = cn_updated ret1
  ∧ (∀ id, id ∈ cn_removed ret ↔
           id ∈ cn_removed ret1
           ∨ (id ∈ entries.*1 ∧ contains_broker cfg id = false)).
Proof.
  revert ret1. induction entries as [|[id0 n0] entries IH]; intros ret1; simpl.
  - split; [done|]. split; [done|]. intros id. split; [tauto|].
    intros [?|[?%elem_of_nil _]]; done.
  - destruct (IH (if contains_broker cfg id0 then ret1
                  else mk_changed_nodes (cn_added ret1) (cn_updated ret1)
                         (cn_removed ret1 ++ [id0]))) as (Ha & Hu & Hr).
    clear IH. rewrite Ha, Hu.
    destruct (contains_broker cfg id0) eqn:Hc; simpl.
    + split; [done|]. split; [done|]. intros id. rewrite Hr, elem_of_cons.
      split; [tauto|]. intros [?|[[->|?] ?]]; [tauto | congruence | tauto].
    + split; [done|]. split; [done|]. intros id. rewrite Hr. simpl.
      rewrite elem_of_app, list_elem_of_singleton, elem_of_cons. split.
      * intros [[?| ->]|[? ?]]; tauto.
      * intros [?|[[->|?] ?]]; tauto.
Qed.

Lemma calculate_changed_nodes_members s cfg :
  let mt := local (_members_table s) in
  let diff := calculate_changed_nodes s cfg in
  (∀ b, b ∈ cn_added diff ↔
        b ∈ brokers cfg ∧ get_node_metadata_ref mt (broker_id b) = None)
  ∧ (∀ b, b ∈ cn_updated diff ↔
          b ∈ brokers cfg
          ∧ ∃ n, get_node_metadata_ref mt (broker_id b) = Some n
                 ∧ nm_broker n ≠ b)
  ∧ (∀ id, id ∈ cn_removed diff ↔
           is_Some (nodes mt !! id) ∧ contains_broker cfg id = false).
Proof.
  intros mt diff. unfold diff, calculate_changed_nodes. fold mt.
  pose proof (changed_nodes_of_brokers mt (brokers cfg)
                (mk_changed_nodes [] [] [])) as H1. cbv zeta in H1.
  destruct H1 as (Ha & Hu & Hr).
  match goal with
  | |- context [foldl ?f ?r1 (map_to_list (nodes mt))] =>
      pose proof (changed_nodes_of_entries cfg (map_to_list (nodes mt)) r1)
        as H2
  end.
  cbv zeta in H2. destruct H2 as (Ha' & Hu' & Hr').
  split; [|split].
  - intros b. rewrite Ha', Ha. simpl. split; [|tauto].
    intros [?%elem_of_nil|?]; [done | tauto].
  - intros b. rewrite Hu', Hu. simpl. split; [|tauto].
    intros [?%elem_of_nil|?]; [done | tauto].
  - intros id. rewrite Hr', Hr. simpl.
    assert (Hdom : id ∈ (map_to_list (nodes mt)).*1 ↔ is_Some (nodes mt !! id)).
    { rewrite list_elem_of_fmap. split.
      - intros ([i n] & -> & Hin%elem_of_map_to_list). eauto.
      - intros [n Hn]. exists (id, n). split; [done|].
        by apply elem_of_map_to_list. }
    rewrite Hdom. split; [|tauto]. intros [?%elem_of_nil|?]; [done | tauto].
Qed.

(** X1. [calculate_changed_nodes] classifies exactly: [added] holds the
    brokers of the configuration whose id the local members table lacks,
    [updated] those whose id the table has with a different broker
    record, and [removed] the ids of the table for which the
    configuration has no broker. *)
Theorem calculate_changed_nodes_spec s cfg :
  let mt := local (_members_table s) in
  let diff := calculate_changed_nodes s cfg in
  (∀ b, b ∈ cn_added diff ↔
        b ∈ brokers cfg ∧ get_node_metadata_ref mt (broker_id b) = None)
  ∧ (∀ b, b ∈ cn_updated diff ↔
          b ∈ brokers cfg
          ∧ ∃ n, get_node_metadata_ref mt (broker_id b) = Some n
                 ∧ nm_broker n ≠ b)
  ∧ (∀ id, id ∈ cn_removed diff ↔
           is_Some (nodes mt !! id)
           ∧ ¬ ∃ b, b ∈ brokers cfg ∧ broker_id b = id).
Proof.
  intros mt diff.
  destruct (calculate_changed_nodes_members s cfg) as (Ha & Hu & Hr).
  split; [done|]. split; [done|]. intros id. fold mt diff in Hr.
  rewrite Hr, <- contains_broker_spec.
  by destruct (contains_broker cfg id); intuition.
Qed.

Lemma calculate_changed_nodes_exclusive s cfg :
  let diff := calculate_changed_nodes s cfg in
  (∀ b, b ∈ cn_added diff → b ∉ cn_updated diff)
  ∧ (∀ b, b ∈ cn_added diff ∨ b ∈ cn_updated diff →
          broker_id b ∉ cn_removed diff).
Proof.
  intros diff.
  destruct (calculate_changed_nodes_members s cfg) as (Ha & Hu & Hr).
  fold diff in Ha, Hu, Hr. split.
  - intros b [_ Hnone]%Ha (_ & n & Hn & _)%Hu. congruence.
  - intros b Hb [_ Hc]%Hr.
    assert (contains_broker cfg (broker_id b) = true); [|congruence].
    apply contains_broker_spec. exists b. split; [|done].
    destruct Hb as [[? _]%Ha | [? _]%Hu]; done.
Qed.

(** X2. A changed node falls into one class only: no broker is both
    added and updated, and the id of an added or updated broker is never
    among the removed ids (a broker whose record changed is updated, not
    removed and added again). *)
Theorem calculate_changed_nodes_classes_disjoint s cfg :
  let diff := calculate_changed_nodes s cfg in
  (∀ b, b ∈ cn_added diff → b ∉ cn_updated diff)
  ∧ (∀ b, b ∈ cn_added diff ∨ b ∈ cn_updated diff →
          broker_id b ∉ cn_removed diff).
Proof. exact (calculate_changed_nodes_exclusive s cfg). Qed.

(** X3. [calculate_changed_nodes] reports no change at all exactly when
    the configuration and the local members table agree: every broker
    of the configuration is in the table with the same record, and every
    id of the table has a broker in the configuration. *)
Theorem calculate_changed_nodes_empty s cfg :
  let mt := local (_members_table s) in
  calculate_changed_nodes s cfg = mk_changed_nodes [] [] []
  ↔ (∀ b, b ∈ brokers cfg →
          ∃ n, get_node_metadata_ref mt (broker_id b) = Some n
               ∧ nm_broker n = b)
    ∧ (∀ id, is_Some (nodes mt !! id) →
             ∃ b, b ∈ brokers cfg ∧ broker_id b = id).
Proof.
  intros mt.
  destruct (calculate_changed_nodes_members s cfg) as (Ha & Hu & Hr).
  fold mt in Ha, Hu, Hr. split.
  - intros Heq. rewrite Heq in Ha, Hu, Hr. simpl in *. split.
    + intros b Hb.
      destruct (get_node_metadata_ref mt (broker_id b)) as [n|] eqn:Hl.
      * exists n. split; [done|].
        destruct (decide (nm_broker n = b)) as [|Hne]; [done|].
        exfalso. eapply elem_of_nil, Hu. eauto.
      * exfalso. eapply elem_of_nil, Ha. eauto.
    + intros id Hid. apply contains_broker_spec.
      destruct (contains_broker cfg id) eqn:Hc; [done|].
      exfalso. eapply elem_of_nil, Hr. eauto.
  - intros [Hall Hids].
    destruct (calculate_changed_nodes s cfg) as [a u r]; simpl in *.
    f_equal.
    + destruct a as [|b a]; [done|]. exfalso.
      destruct (proj1 (Ha b)) as [Hb Hnone]; [by left|].
      destruct (Hall b Hb) as (n & Hn & _). congruence.
    + destruct u as [|b u]; [done|]. exfalso.
      destruct (proj1 (Hu b)) as (Hb & n & Hn & Hne); [by left|].
      destruct (Hall b Hb) as (n' & Hn' & Heq). congruence.
    + destruct r as [|id r]; [done|]. exfalso.
      destruct (proj1 (Hr id)) as [Hid Hc]; [by left|].
      apply Hids, contains_broker_spec in Hid. congruence.
Qed.

(** ** Connection cache *)

Lemma update_clients_lookup self_id (bs : list broker)
    (c : gmap Z unresolved_address) k :
  foldl (fun c b =>
           if broker_id b =? self_id then c
           else update_broker_client (broker_id b) (rpc_address b) c) c bs
  !! k
  = if decide (k = self_id) then c !! k else last_address k bs (c !! k).
Proof.
  revert c. induction bs as [|b bs IH]; intros c; simpl.
  - by case_decide.
  - rewrite IH. case_decide as Hk; [subst k|].
    + destruct (broker_id b =? self_id) eqn:E; [done|].
      apply Z.eqb_neq in E. unfold update_broker_client.
      by rewrite lookup_insert_ne.
    + destruct (broker_id b =? self_id) eqn:E.
      * apply Z.eqb_eq in E.
        destruct (broker_id b =? k) eqn:E'; [|done].
        apply Z.eqb_eq in E'. congruence.
      * unfold update_broker_client.
        destruct (broker_id b =? k) eqn:E'.
        -- apply Z.eqb_eq in E' as ->. by rewrite lookup_insert_eq.
        -- apply Z.eqb_neq in E'. by rewrite lookup_insert_ne.
Qed.

Lemma remove_clients_lookup self_id (ids : list Z)
    (c : gmap Z unresolved_address) k :
  foldl (fun c id => if id =? self_id then c else remove_broker_client id c)
    c ids !! k
  = if decide (k ≠ self_id ∧ k ∈ ids) then None else c !! k.
Proof.
  revert c. induction ids as [|id ids IH]; intros c; simpl.
  - case_decide as H; [|done]. by destruct H as [_ ?%elem_of_nil].
  - rewrite IH. unfold remove_broker_client.
    destruct (id =? self_id) eqn:E.
    + apply Z.eqb_eq in E as ->.
      repeat case_decide; try done; exfalso;
        rewrite ?elem_of_cons in *; intuition congruence.
    + apply Z.eqb_neq in E.
      destruct (decide (k = id)) as [->|Hne].
      * rewrite lookup_delete_eq.
        repeat case_decide; try done; exfalso;
        rewrite ?elem_of_cons in *; intuition congruence.
      * rewrite lookup_delete_ne by done.
        repeat case_decide; try done; exfalso;
        rewrite ?elem_of_cons in *; intuition congruence.
Qed.

Lemma last_address_none k bs acc :
  (∀ b, b ∈ bs → broker_id b ≠ k) → last_address k bs acc = acc.
Proof.
  revert acc. induction bs as [|b bs IH]; intros acc Hall; simpl; [done|].
  rewrite IH by (intros b' ?; apply Hall; by right).
  destruct (broker_id b =? k) eqn:E; [|done].
  apply Z.eqb_eq in E. exfalso. by apply (Hall b); [left|].
Qed.

Lemma last_address_some k bs acc :
  (∃ b, b ∈ bs ∧ broker_id b = k) →
  ∃ b, b ∈ bs ∧ broker_id b = k
       ∧ last_address k bs acc = Some (rpc_address b).
Proof.
  revert acc. induction bs as [|b0 bs IH]; intros acc (b & Hin & Hid); simpl.
  - by apply elem_of_nil in Hin.
  - destruct (decide (Exists (fun b' => broker_id b' = k) bs))
      as [Hex%Exists_exists|Hno].
    2: rewrite Exists_exists in Hno.
    + destruct (IH (if broker_id b0 =? k then Some (rpc_address b0) else acc)
                  Hex) as (b' & Hin' & Hid' & Heq).
      exists b'. split; [by right | done].
    + rewrite last_address_none by (intros b' ? ?; apply Hno; eauto).
      apply elem_of_cons in Hin as [->|Hin]; [|exfalso; apply Hno; eauto].
      exists b0. split; [by left|]. split; [done|].
      by rewrite (proj2 (Z.eqb_eq _ _) Hid).
Qed.

(** The client of id [k] after [update_connections]. *)
Lemma update_connections_lookup self_id changed c k :
  update_connections self_id changed c !! k
  = if decide (k = self_id) then c !! k
    else last_address k (cn_updated changed)
           (last_address k (cn_added changed)
              (if decide (k ∈ cn_removed changed) then None else c !! k)).
Proof.
  unfold update_connections. rewrite !update_clients_lookup.
  rewrite remove_clients_lookup.
  case_decide as Hk; [subst k|].
  - case_decide as H; [by destruct H | done].
  - do 2 f_equal. repeat case_decide; try done.
    + exfalso. apply H0. by destruct H.
    + exfalso. by apply H.
Qed.

Lemma last_address_acc k bs acc :
  last_address k bs acc
  = match last_address k bs None with Some a => Some a | None => acc end.
Proof.
  revert acc. induction bs as [|b bs IH]; intros acc; simpl; [done|].
  destruct (broker_id b =? k); [|apply IH].
  rewrite (IH (Some _)). by destruct (last_address k bs None).
Qed.

(** X4. [update_connections] leaves the node's own entry of the
    connection cache alone, whatever the changed nodes say about it, and
    it leaves alone every id that is neither removed nor the id of an
    added or updated broker. *)
Theorem update_connections_frame self_id changed c :
  update_connections self_id changed c !! self_id = c !! self_id
  ∧ ∀ k, k ∉ cn_removed changed →
         (∀ b, b ∈ cn_added changed ∨ b ∈ cn_updated changed →
               broker_id b ≠ k) →
         update_connections self_id changed c !! k = c !! k.
Proof.
  split.
  - rewrite update_connections_lookup. by case_decide.
  - intros k Hrem Hall. rewrite update_connections_lookup.
    case_decide; [done|].
    rewrite !last_address_none by (intros b ?; apply Hall; tauto).
    by case_decide.
Qed.

(** X5. [update_connections] is idempotent: reconciling the cache twice
    with the same changed nodes gives the cache of the first time. *)
Theorem update_connections_idempotent self_id changed c :
  update_connections self_id changed (update_connections self_id changed c)
  = update_connections self_id changed c.
Proof.
  apply map_eq. intros k. rewrite !update_connections_lookup.
  case_decide; [done|].
  rewrite (last_address_acc k (cn_updated changed)).
  rewrite (last_address_acc k (cn_updated changed)
             (last_address k (cn_added changed) _)).
  destruct (last_address k (cn_updated changed) None); [done|].
  rewrite (last_address_acc k (cn_added changed)).
  rewrite (last_address_acc k (cn_added changed)
             (if decide (k ∈ cn_removed changed) then None else c !! k)).
  destruct (last_address k (cn_added changed) None); [done|].
  by case_decide.
Qed.

Lemma update_connections_client self_id changed c k :
  k ≠ self_id →
  (∃ b, (b ∈ cn_added changed ∨ b ∈ cn_updated changed) ∧ broker_id b = k) →
  ∃ b, (b ∈ cn_added changed ∨ b ∈ cn_updated changed) ∧ broker_id b = k
       ∧ update_connections self_id changed c !! k = Some (rpc_address b).
Proof.
  intros Hk (b & Hb & Hid). rewrite update_connections_lookup.
  case_decide; [done|].
  destruct (decide (Exists (fun b' => broker_id b' = k) (cn_updated changed)))
    as [Hex%Exists_exists|Hno].
  - destruct (last_address_some k _
                (last_address k (cn_added changed)
                   (if decide (k ∈ cn_removed changed) then None else c !! k))
                Hex) as (b' & Hin & Hid' & Heq).
    exists b'. split; [tauto | done].
  - rewrite Exists_exists in Hno.
    rewrite (last_address_none k (cn_updated changed))
      by (intros b' ? ?; apply Hno; eauto).
    destruct Hb as [Hb|Hb]; [|exfalso; apply Hno; eauto].
    destruct (last_address_some k (cn_added changed)
                (if decide (k ∈ cn_removed changed) then None else c !! k))
      as (b' & Hin & Hid' & Heq); [eauto|].
    exists b'. split; [tauto | done].
Qed.

Lemma update_connections_removed self_id changed c k :
  k ≠ self_id → k ∈ cn_removed changed →
  (∀ b, b ∈ cn_added changed ∨ b ∈ cn_updated changed → broker_id b ≠ k) →
  update_connections self_id changed c !! k = None.
Proof.
  intros Hk Hrem Hall. rewrite update_connections_lookup.
  case_decide; [done|].
  rewrite !last_address_none by (intros b ?; apply Hall; tauto).
  by case_decide.
Qed.

(** X6. After [handle_raft0_cfg_update] at an offset above
    [_last_connection_update_offset], the connection cache follows the
    configuration for every node but this one: an id that the members
    table lacked, or held with another broker record, has a client at
    the RPC address of a broker of the configuration with that id; an id
    of the table without a broker in the configuration has no client. *)
Theorem handle_raft0_cfg_update_connections
    update_brokers cfg update_offset s :
  _last_connection_update_offset s < update_offset →
  ∃ s', handle_raft0_cfg_update update_brokers cfg update_offset s
        = Done tt s'
    ∧ (∀ b, b ∈ brokers cfg → broker_id b ≠ broker_id (_self s) →
            (∀ n, nodes (local (_members_table s)) !! broker_id b = Some n →
                  nm_broker n ≠ b) →
            ∃ b', b' ∈ brokers cfg ∧ broker_id b' = broker_id b
                  ∧ _connection_cache s' !! broker_id b
                    = Some (rpc_address b'))
    ∧ (∀ id, is_Some (nodes (local (_members_table s)) !! id) →
             id ≠ broker_id (_self s) →
             (∀ b, b ∈ brokers cfg → broker_id b ≠ id) →
             _connection_cache s' !! id = None).
Proof.
  intros Hlt.
  destruct (handle_raft0_cfg_update_newer update_brokers cfg update_offset s
              Hlt) as (s' & Hs' & _ & Hcache & _).
  exists s'. split; [done|]. rewrite Hcache.
  destruct (calculate_changed_nodes_members s cfg) as (Ha & Hu & Hr).
  destruct (calculate_changed_nodes_exclusive s cfg) as [_ Hex].
  cbv zeta in Ha, Hu, Hr, Hex. split.
  - intros b Hb Hself Hdiff.
    destruct (update_connections_client (broker_id (_self s))
                (calculate_changed_nodes s cfg) (_connection_cache s)
                (broker_id b) Hself) as (b' & Hb' & Hid & Heq).
    { exists b. split; [|done].
      destruct (get_node_metadata_ref (local (_members_table s))
                  (broker_id b)) as [n|] eqn:Hl.
      - right. apply Hu. split; [done|]. exists n. split; [done|].
        by apply Hdiff.
      - left. by apply Ha. }
    exists b'. split; [|done].
    destruct Hb' as [[? _]%Ha | [? _]%Hu]; done.
  - intros id Hid Hself Hnone.
    apply update_connections_removed; [done | |].
    + apply Hr. split; [done|].
      destruct (contains_broker cfg id) eqn:Hc; [|done].
      apply contains_broker_spec in Hc as (b & Hb & Hbid).
      by destruct (Hnone b Hb).
    + intros b Hb Heq. apply (Hnone b); [|done].
      destruct Hb as [[? _]%Ha | [? _]%Hu]; done.
Qed.

Lemma handle_raft0_cfg_update_connections_witness :
  let s := set_connection_cache (<[5 := mk_address "10.0.0.9" 1]>)
             (set_last_connection_update_offset 10
                (fresh_manager
                   (sample_table [self_broker; sample_broker 5 1 1 1] []))) in
  let cfg := simple_configuration [self_broker; sample_broker 1 4 33146 9093] in
  _last_connection_update_offset s < 12
  ∧ ∃ s', handle_raft0_cfg_update (fun _ _ mt => mt) cfg 12 s = Done tt s'
          ∧ _connection_cache s' !! 1 = Some (mk_address "10.0.0.1" 33146)
          ∧ _connection_cache s' !! 5 = None.
Proof.
  intros s cfg. split; [simpl; lia|].
  destruct (handle_raft0_cfg_update_connections (fun _ _ mt => mt) cfg 12 s)
    as (s' & Hs' & Hadd & Hrem); [simpl; lia|].
  exists s'. split; [done|]. split.
  - destruct (Hadd (sample_broker 1 4 33146 9093)) as (b' & Hb' & Hid & Hc).
    + right. by left.
    + done.
    + intros n Hn. by vm_compute in Hn.
    + simpl in Hb'.
      apply elem_of_cons in Hb' as [->|Hb']; [by simpl in Hid|].
      apply list_elem_of_singleton in Hb' as ->. exact Hc.
  - apply Hrem.
    + by vm_compute; eauto.
    + done.
    + intros b Hb. simpl in Hb.
      apply elem_of_cons in Hb as [->|Hb]; [done|].
      apply list_elem_of_singleton in Hb as ->. done.
Defined.

(** ** Commands on all shards *)

Lemma forallb_agree (sentinel : errc) (rs : list errc) :
  forallb (fun res => bool_decide (sentinel = res)) rs = true
  ↔ ∀ r, r ∈ rs → r = sentinel.
Proof.
  rewrite forallb_forall. split.
  - intros H r Hr%list_elem_of_In. by apply H, bool_decide_eq_true in Hr.
  - intros H r Hr%list_elem_of_In. apply bool_decide_eq_true.
    symmetry. by apply H.
Qed.

Lemma dispatch_updates_to_cores_unfold members_table_apply o cmd s :
  let r0 := members_table_apply o cmd (local (_members_table s)) in
  let rs := members_table_apply o cmd <$> remote (_members_table s) in
  dispatch_updates_to_cores members_table_apply o cmd s
  = if forallb (fun res => bool_decide (r0.1 = res)) rs.*1
    then Done r0.1 (set_members_table (fun _ => mk_sharded r0.2 rs.*2) s)
    else Abort.
Proof.
  intros r0 rs. unfold dispatch_updates_to_cores, bind, get, modify, vassert.
  fold r0 rs. simpl. rewrite bool_decide_eq_true_2 by done. simpl.
  by destruct (forallb _ _).
Qed.

(** X7. [dispatch_updates_to_cores] applies the command to the members
    table of every shard. It aborts exactly when the result of some other
    shard differs from that of the local shard; otherwise it returns the
    common result and changes nothing but the tables. *)
Theorem dispatch_updates_to_cores_spec members_table_apply o cmd s :
  let apply_on := members_table_apply o cmd in
  let tables := _members_table s in
  (dispatch_updates_to_cores members_table_apply o cmd s = Abort
   ↔ ∃ mt, mt ∈ remote tables ∧ (apply_on mt).1 ≠ (apply_on (local tables)).1)
  ∧ ∀ err s',
      dispatch_updates_to_cores members_table_apply o cmd s = Done err s' →
      err = (apply_on (local tables)).1
      ∧ (∀ mt, mt ∈ remote tables → (apply_on mt).1 = err)
      ∧ s' = set_members_table
               (fun _ => mk_sharded (apply_on (local tables)).2
                           ((fun mt => (apply_on mt).2) <$> remote tables))
               s.
Proof.
  intros apply_on tables.
  rewrite dispatch_updates_to_cores_unfold. fold tables apply_on.
  destruct (forallb _ _) eqn:Hall.
  - pose proof (proj1 (forallb_agree _ _) Hall) as Hagree. clear Hall.
    rename Hagree into Hall. split.
    + split; [done|]. intros (mt & Hmt & Hne). exfalso. apply Hne, Hall.
      rewrite <- list_fmap_compose. apply list_elem_of_fmap. by exists mt.
    + intros err s' [= <- <-]. split; [done|]. split.
      * intros mt Hmt. apply Hall. rewrite <- list_fmap_compose.
        apply list_elem_of_fmap. by exists mt.
      * by rewrite <- list_fmap_compose.
  - split; [|done]. split; [|done]. intros _.
    destruct (decide (Exists (fun mt => (apply_on mt).1
                                        ≠ (apply_on (local tables)).1)
                        (remote tables))) as [Hex%Exists_exists|Hno];
      [done|].
    rewrite Exists_exists in Hno.
    assert (forallb (fun res => bool_decide ((apply_on (local tables)).1 = res))
              (apply_on <$> remote tables).*1 = true) as Hyes; [|congruence].
    apply forallb_agree. intros r.
    rewrite <- list_fmap_compose, list_elem_of_fmap.
    intros (mt & -> & Hmt). simpl.
    destruct (decide ((apply_on mt).1 = (apply_on (local tables)).1));
      [done|]. exfalso. apply Hno. eauto.
Qed.

(** ** What a batch changes *)

Lemma update_connections_lookup_self self_id changed c :
  update_connections self_id changed c !! self_id = c !! self_id.
Proof. rewrite update_connections_lookup. by case_decide. Qed.

Lemma handle_raft0_cfg_update_unfold update_brokers cfg update_offset s :
  let s2 := set_members_table
              (invoke_on_all (update_brokers update_offset (brokers cfg)))
              (set_allocator
                 (fun a => a ++ [update_allocation_nodes (brokers cfg)]) s) in
  handle_raft0_cfg_update update_brokers cfg update_offset s
  = Done tt
      (if update_offset <=? _last_connection_update_offset s then s2
       else set_update_queue
              (fun q => q ++ ((fun b => mk_node_update (broker_id b) added
                                          update_offset)
                                <$> cn_added (calculate_changed_nodes s cfg)))
              (set_last_connection_update_offset update_offset
                 (set_connection_cache
                    (update_connections (broker_id (_self s))
                       (calculate_changed_nodes s cfg)) s2))).
Proof.
  intros s2. unfold handle_raft0_cfg_update.
  rewrite bind_modify, bind_get, bind_modify, bind_get.
  change (_last_connection_update_offset (set_members_table _ _))
    with (_last_connection_update_offset s).
  destruct (update_offset <=? _last_connection_update_offset s); [done|].
  by rewrite !bind_modify, push_all_added.
Qed.

(** The effects of one batch, field by field. *)
Lemma apply_update_effects raft0 members_table_apply update_brokers b ec s s' :
  apply_update raft0 members_table_apply update_brokers b s = Done ec s' →
  _self s' = _self s
  ∧ _last_connection_update_offset s ≤ _last_connection_update_offset s'
  ∧ (∃ us, _update_queue s' = _update_queue s ++ us
           ∧ ∀ u, u ∈ us → nu_offset u = batch_offset b)
  ∧ (is_register_batch b = false →
     _id_by_uuid s' = _id_by_uuid s
     ∧ _next_assigned_id s' = _next_assigned_id s)
  ∧ (is_register_batch b = true →
     _members_table s' = _members_table s
     ∧ _connection_cache s' = _connection_cache s
     ∧ _allocator s' = _allocator s
     ∧ _drain_manager s' = _drain_manager s
     ∧ _update_queue s' = _update_queue s
     ∧ _last_connection_update_offset s'
       = _last_connection_update_offset s)
  ∧ _connection_cache s' !! broker_id (_self s)
    = _connection_cache s !! broker_id (_self s).
Proof.
  assert (Hnil : ∀ (q : list node_update) o,
            ∃ us, q = q ++ us ∧ ∀ u, u ∈ us → nu_offset u = o).
  { intros q o. exists []. split; [by rewrite app_nil_r|].
    by intros u ?%elem_of_nil. }
  assert (Hone : ∀ (q : list node_update) id t o,
            ∃ us, q ++ [mk_node_update id t o] = q ++ us
                  ∧ ∀ u, u ∈ us → nu_offset u = o).
  { intros q id t o. eexists. split; [done|].
    by intros u ->%list_elem_of_singleton. }
  intros Hrun. destruct b as [o records | o cmd]; simpl in Hrun.
  - (* a raft configuration *)
    unfold apply_raft_configuration_batch, bind, vassert in Hrun.
    destruct records as [|cfg [|? ?]]; simpl in Hrun; try done.
    rewrite handle_raft0_cfg_update_unfold in Hrun. cbv zeta in Hrun.
    injection Hrun as <- <-.
    destruct (o <=? _last_connection_update_offset s) eqn:E; simpl.
    + repeat split; try done; try lia; try (auto; fail).
    + apply Z.leb_gt in E. repeat split; try done; try lia.
      * eexists. split; [done|]. intros u (b & -> & _)%list_elem_of_fmap.
        done.
      * apply update_connections_lookup_self.
  - destruct cmd as [id | id | id | id enabled | uuid requested];
      simpl in Hrun.
    + (* decommission_node *)
      unfold bind in Hrun. rewrite dispatch_updates_to_cores_unfold in Hrun.
      cbv zeta in Hrun. destruct (forallb _ _); [|done].
      case_bool_decide; injection Hrun as <- <-; simpl;
        repeat split; try done; try lia; try (auto; fail).
    + (* recommission_node *)
      assert (Hdispatch : ∀ ec s',
        (let* err := dispatch_updates_to_cores members_table_apply o
                       (recommission_node_cmd id) in
         (if bool_decide (err = success) then
            modify (set_allocator
                      (fun a => a ++ [allocator_recommission_node id])) ;;;
            push_eventually (mk_node_update id recommissioned o)
          else ret tt) ;;;
         ret (cluster_error err)) s = Done ec s' →
        _self s' = _self s
        ∧ _last_connection_update_offset s ≤ _last_connection_update_offset s'
        ∧ (∃ us, _update_queue s' = _update_queue s ++ us
                 ∧ ∀ u, u ∈ us → nu_offset u = o)
        ∧ _id_by_uuid s' = _id_by_uuid s
        ∧ _next_assigned_id s' = _next_assigned_id s
        ∧ _connection_cache s' = _connection_cache s).
      { intros ec0 s0 H. unfold bind in H.
        rewrite dispatch_updates_to_cores_unfold in H. cbv zeta in H.
        destruct (forallb _ _); [|done].
        case_bool_decide; injection H as <- <-; simpl;
          repeat split; try done; try lia; try (auto; fail). }
      destruct (get_state (config raft0)).
      * apply Hdispatch in Hrun as (? & ? & ? & ? & ? & Hc).
        rewrite Hc. repeat split; try done.
      * destruct (old_config (config raft0)) as [old|]; [|done].
        destruct (find _ _).
        -- injection Hrun as <- <-.
           repeat split; try done; try lia; try (auto; fail).
        -- apply Hdispatch in Hrun as (? & ? & ? & ? & ? & Hc).
           rewrite Hc. repeat split; try done.
    + (* finish_reallocations *)
      injection Hrun as <- <-. simpl.
      repeat split; try done; try lia; try (auto; fail).
    + (* maintenance_mode *)
      unfold bind in Hrun. rewrite dispatch_updates_to_cores_unfold in Hrun.
      cbv zeta in Hrun. destruct (forallb _ _); [|done]. simpl in Hrun.
      destruct (_ && _); injection Hrun as <- <-; simpl;
        repeat split; try done; try lia; try (auto; fail).
    + (* register_node_uuid *)
      destruct requested as [requested|].
      * unfold bind in Hrun.
        destruct (decide (requested = unassigned_node_id)) as [->|Hne];
          [by rewrite try_register_unassigned in Hrun|].
        destruct (_id_by_uuid s !! uuid) as [bound|] eqn:Hl.
        -- rewrite (try_register_known _ _ _ _ Hne Hl) in Hrun.
           destruct (bound =? requested); injection Hrun as <- <-;
             repeat split; try done; try lia; try (auto; fail).
        -- rewrite (try_register_unknown _ _ _ Hne Hl) in Hrun.
           injection Hrun as <- <-. simpl.
           repeat split; try done; try lia; try (auto; fail).
      * unfold bind in Hrun.
        destruct (_id_by_uuid s !! uuid) as [bound|] eqn:Hl.
        -- rewrite (get_or_assign_bound _ _ _ Hl) in Hrun.
           injection Hrun as <- <-. repeat split; try done; try lia; try (auto; fail).
        -- rewrite (get_or_assign_unbound _ _ Hl) in Hrun.
           destruct (skip_used_ids _ _) as [m|m].
           ++ injection Hrun as <- <-. simpl.
              repeat split; try done; try lia; try (auto; fail).
           ++ destruct (m =? INT_MAX); injection Hrun as <- <-; simpl;
                repeat split; try done; try lia; try (auto; fail).
Qed.

Lemma apply_updates_cons raft0 members_table_apply update_brokers
    b rest ecs s s' :
  apply_updates raft0 members_table_apply update_brokers (b :: rest) s
  = Done ecs s' →
  ∃ ec ecs' s1,
    apply_update raft0 members_table_apply update_brokers b s = Done ec s1
    ∧ apply_updates raft0 members_table_apply update_brokers rest s1
      = Done ecs' s'
    ∧ ecs = ec :: ecs'.
Proof.
  simpl. unfold bind, ret.
  destruct (apply_update _ _ _ b s) as [ec s1|]; [|done].
  destruct (apply_updates _ _ _ rest s1) as [ecs' s2|] eqn:Hrest; [|done].
  intros [= <- <-]. exists ec, ecs', s1. by rewrite Hrest.
Qed.

(** X8. Over any sequence of applied batches,
    [_last_connection_update_offset] never decreases and the node's own
    entry of the connection cache is never touched. *)
Theorem apply_updates_connection_offset_monotone
    raft0 members_table_apply update_brokers batches ecs s s' :
  apply_updates raft0 members_table_apply update_brokers batches s
  = Done ecs s' →
  _last_connection_update_offset s ≤ _last_connection_update_offset s'
  ∧ _connection_cache s' !! broker_id (_self s)
    = _connection_cache s !! broker_id (_self s).
Proof.
  revert ecs s. induction batches as [|b rest IH]; intros ecs s Hrun.
  - injection Hrun as <- <-. split; [lia | done].
  - apply apply_updates_cons in Hrun as (ec & ecs' & s1 & H1 & Hrest & ->).
    apply apply_update_effects in H1 as (Hself & Hle & _ & _ & _ & Hc).
    destruct (IH _ _ Hrest) as [Hle' Hc']. split; [lia|].
    rewrite <- Hc, <- Hself. exact Hc'.
Qed.

Lemma apply_updates_connection_offset_monotone_witness :
  let batches :=
    [raft_configuration 12
       [simple_configuration [self_broker; sample_broker 1 4 33146 9093]];
     node_management_cmd 13 (finish_reallocations_cmd 1);
     raft_configuration 11 [simple_configuration [self_broker]]] in
  let s := set_last_connection_update_offset 10 seed_manager in
  ∃ ecs s',
    apply_updates seed_raft0 forgetful_apply (fun _ _ mt => mt) batches s
    = Done ecs s'
    ∧ _last_connection_update_offset s' = 12
    ∧ _last_connection_update_offset s ≤ _last_connection_update_offset s'.
Proof.
  intros batches s.
  destruct (apply_updates seed_raft0 forgetful_apply (fun _ _ mt => mt)
              batches s) as [ecs s'|] eqn:Hrun; [|by vm_compute in Hrun].
  exists ecs, s'. split; [done|].
  pose proof (apply_updates_connection_offset_monotone _ _ _ _ _ _ _ Hrun)
    as [Hle _].
  split; [|exact Hle].
  vm_compute in Hrun. by injection Hrun as <- <-.
Defined.

(** X9. Applied batches only append to the update queue: what was
    queued stays, in its order, and when the batches come in
    non-decreasing offset order the updates they append carry
    non-decreasing offsets, each the offset of one of the batches. *)
Theorem apply_updates_queue_in_offset_order
    raft0 members_table_apply update_brokers batches ecs s s' :
  apply_updates raft0 members_table_apply update_brokers batches s
  = Done ecs s' →
  ∃ us, _update_queue s' = _update_queue s ++ us
        ∧ (∀ u, u ∈ us → ∃ b, b ∈ batches ∧ nu_offset u = batch_offset b)
        ∧ (StronglySorted Z.le (batch_offset <$> batches) →
           StronglySorted Z.le (nu_offset <$> us)).
Proof.
  revert ecs s. induction batches as [|b rest IH]; intros ecs s Hrun.
  - injection Hrun as <- <-. exists []. split; [by rewrite app_nil_r|].
    split; [by intros u ?%elem_of_nil | intros _; constructor].
  - apply apply_updates_cons in Hrun as (ec & ecs' & s1 & H1 & Hrest & ->).
    apply apply_update_effects in H1 as (_ & _ & (us1 & Hq1 & Hoff1) & _).
    destruct (IH _ _ Hrest) as (us2 & Hq2 & Hoff2 & Hsorted2).
    exists (us1 ++ us2). split; [by rewrite Hq2, Hq1, app_assoc|]. split.
    + intros u [Hu|Hu]%elem_of_app.
      * exists b. split; [by left | by apply Hoff1].
      * destruct (Hoff2 u Hu) as (b' & Hb' & Hb'o). exists b'.
        split; [by right | done].
    + intros Hsorted. simpl in Hsorted.
      apply StronglySorted_inv in Hsorted as [Hrest_sorted Hall].
      rewrite fmap_app. apply StronglySorted_app.
      split; [|split; [|by apply Hsorted2]].
      * intros o1 o2 (u1 & -> & Hu1)%list_elem_of_fmap
                     (u2 & -> & Hu2)%list_elem_of_fmap.
        rewrite (Hoff1 u1 Hu1).
        destruct (Hoff2 u2 Hu2) as (b' & Hb' & ->).
        rewrite Forall_forall in Hall. apply Hall.
        apply list_elem_of_fmap. eauto.
      * clear - Hoff1. induction us1 as [|u us1 IHus]; [constructor|].
        simpl. constructor.
        -- apply IHus. intros u' ?. apply Hoff1. by right.
        -- apply Forall_forall. intros o (u' & -> & Hu')%list_elem_of_fmap.
           rewrite (Hoff1 u) by (by left).
           rewrite (Hoff1 u') by (by right). lia.
Qed.

(** X10. Batches other than [register_node_uuid] leave the registry of
    node UUIDs and [_next_assigned_id] as they are; a
    [register_node_uuid] batch leaves everything else as it is: members
    tables, connection cache, allocator, drain manager, update queue and
    [_last_connection_update_offset]. *)
Theorem apply_update_frame
    raft0 members_table_apply update_brokers b ec s s' :
  apply_update raft0 members_table_apply update_brokers b s = Done ec s' →
  (is_register_batch b = false →
   _id_by_uuid s' = _id_by_uuid s
   ∧ _next_assigned_id s' = _next_assigned_id s)
  ∧ (is_register_batch b = true →
     _members_table s' = _members_table s
     ∧ _connection_cache s' = _connection_cache s
     ∧ _allocator s' = _allocator s
     ∧ _drain_manager s' = _drain_manager s
     ∧ _update_queue s' = _update_queue s
     ∧ _last_connection_update_offset s'
       = _last_connection_update_offset s).
Proof.
  intros Hrun.
  apply apply_update_effects in Hrun as (_ & _ & _ & H1 & H2 & _). done.
Qed.

Lemma apply_update_frame_witness :
  let b := node_management_cmd 4 (register_node_uuid_cmd uuid_1 None) in
  let s' := set_next_assigned_id 2
              (set_id_by_uuid (<[uuid_1 := 1]>) seed_manager) in
  apply_update seed_raft0 forgetful_apply (fun _ _ mt => mt) b seed_manager
  = Done (cluster_error success) s'
  ∧ _members_table s' = _members_table seed_manager
  ∧ _update_queue s' = _update_queue seed_manager.
Proof.
  intros b s'.
  assert (Hrun : apply_update seed_raft0 forgetful_apply (fun _ _ mt => mt) b
                   seed_manager = Done (cluster_error success) s')
    by (by vm_compute).
  split; [done|].
  destruct (apply_update_frame _ _ _ _ _ _ _ Hrun) as [_ H].
  destruct (H eq_refl) as (Ht & _ & _ & _ & Hq & _). done.
Defined.

Lemma apply_updates_queue_in_offset_order_witness :
  let batches :=
    [raft_configuration 12
       [simple_configuration [self_broker; sample_broker 1 4 33146 9093]];
     node_management_cmd 13 (finish_reallocations_cmd 1)] in
  let s := set_last_connection_update_offset 10 seed_manager in
  ∃ ecs s',
    apply_updates seed_raft0 forgetful_apply (fun _ _ mt => mt) batches s
    = Done ecs s'
    ∧ _update_queue s'
      = [mk_node_update 1 added 12; mk_node_update 1 reallocation_finished 13]
    ∧ ∃ us, _update_queue s' = _update_queue s ++ us
            ∧ StronglySorted Z.le (nu_offset <$> us).
Proof.
  intros batches s.
  destruct (apply_updates seed_raft0 forgetful_apply (fun _ _ mt => mt)
              batches s) as [ecs s'|] eqn:Hrun; [|by vm_compute in Hrun].
  exists ecs, s'. split; [done|].
  destruct (apply_updates_queue_in_offset_order _ _ _ _ _ _ _ Hrun)
    as (us & Hq & _ & Hsorted).
  split.
  - vm_compute in Hrun. by injection Hrun as <- <-.
  - exists us. split; [done|]. apply Hsorted. simpl.
    repeat constructor. lia.
Defined.

(** ** Single commands *)

(** X11. A [decommission_node(id)] command returns the result of the
    members tables. When that is [success] the allocator is told to
    decommission the node and [{id, decommissioned, offset}] is put on
    the update queue; on any other result neither happens. *)
Theorem apply_update_decommission
    raft0 members_table_apply update_brokers o id ec s s' :
  apply_update raft0 members_table_apply update_brokers
    (node_management_cmd o (decommission_node_cmd id)) s = Done ec s' →
  let err := (members_table_apply o (decommission_node_cmd id)
                (local (_members_table s))).1 in
  ec = cluster_error err
  ∧ (err = success →
     _allocator s' = _allocator s ++ [allocator_decommission_node id]
     ∧ _update_queue s' = _update_queue s ++ [mk_node_update id decommissioned o])
  ∧ (err ≠ success →
     _allocator s' = _allocator s ∧ _update_queue s' = _update_queue s).
Proof.
  intros Hrun err. simpl in Hrun. unfold bind in Hrun.
  rewrite dispatch_updates_to_cores_unfold in Hrun. cbv zeta in Hrun.
  fold err in Hrun. destruct (forallb _ _); [|done].
  case_bool_decide as Herr; injection Hrun as <- <-; simpl.
  - split; [done|]. split; [done|]. by intros [].
  - split; [done|]. split; [by intros ?|done].
Qed.

Lemma apply_update_decommission_witness :
  ∃ s',
    apply_update seed_raft0 refusing_apply (fun _ _ mt => mt)
      (node_management_cmd 5 (decommission_node_cmd 9)) seed_manager
    = Done (cluster_error invalid_node_operation) s'
    ∧ _allocator s' = _allocator seed_manager
    ∧ _update_queue s' = _update_queue seed_manager.
Proof.
  destruct (apply_update seed_raft0 refusing_apply (fun _ _ mt => mt)
              (node_management_cmd 5 (decommission_node_cmd 9)) seed_manager)
    as [ec s'|] eqn:Hrun; [|by vm_compute in Hrun].
  destruct (apply_update_decommission _ _ _ _ _ _ _ _ Hrun)
    as (Hec & _ & Hrefused).
  exists s'. split; [by rewrite Hec|]. by apply Hrefused.
Defined.

(** X12. A [maintenance_mode(id, enabled)] command calls the drain
    manager, [drain] when enabled and [restore] otherwise, exactly when
    the members tables accept it and [id] is this node; it never touches
    the allocator or the update queue. *)
Theorem apply_update_maintenance_mode
    raft0 members_table_apply update_brokers o id enabled ec s s' :
  apply_update raft0 members_table_apply update_brokers
    (node_management_cmd o (maintenance_mode_cmd id enabled)) s
  = Done ec s' →
  let err := (members_table_apply o (maintenance_mode_cmd id enabled)
                (local (_members_table s))).1 in
  ec = cluster_error err
  ∧ _allocator s' = _allocator s
  ∧ _update_queue s' = _update_queue s
  ∧ _drain_manager s'
    = if decide (err = success ∧ id = broker_id (_self s))
      then _drain_manager s ++ [if enabled then drain else restore]
      else _drain_manager s.
Proof.
  intros Hrun err. simpl in Hrun. unfold bind in Hrun.
  rewrite dispatch_updates_to_cores_unfold in Hrun. cbv zeta in Hrun.
  fold err in Hrun. destruct (forallb _ _); [|done]. simpl in Hrun.
  case_bool_decide as Herr; simpl in Hrun.
  - destruct (id =? broker_id (_self s)) eqn:E;
      injection Hrun as <- <-; simpl.
    + apply Z.eqb_eq in E. by rewrite decide_True.
    + apply Z.eqb_neq in E. rewrite decide_False by tauto. done.
  - injection Hrun as <- <-. simpl. rewrite decide_False by tauto. done.
Qed.

Lemma apply_update_maintenance_mode_witness :
  let s1 := set_drain_manager (fun _ => [drain]) seed_manager in
  apply_update seed_raft0 accepting_apply (fun _ _ mt => mt)
    (node_management_cmd 5 (maintenance_mode_cmd 0 true)) seed_manager
  = Done (cluster_error success) s1
  ∧ _drain_manager s1 = _drain_manager seed_manager ++ [drain]
  ∧ _update_queue s1 = _update_queue seed_manager.
Proof.
  intros s1.
  assert (H1 : apply_update seed_raft0 accepting_apply (fun _ _ mt => mt)
                 (node_management_cmd 5 (maintenance_mode_cmd 0 true))
                 seed_manager = Done (cluster_error success) s1)
    by (by vm_compute).
  split; [done|].
  destruct (apply_update_maintenance_mode _ _ _ _ _ _ _ _ _ H1)
    as (_ & _ & Hq & Hd).
  split; [|exact Hq]. rewrite Hd. by rewrite decide_True.
Defined.

(** X13. Replaying a [register_node_uuid] command is harmless: when a
    command with a UUID and an optional id has been applied with
    [success], applying the same command again returns [success] and
    changes nothing. *)
Theorem apply_update_register_replay
    raft0 members_table_apply update_brokers o o' uuid requested s s1 :
  apply_update raft0 members_table_apply update_brokers
    (node_management_cmd o (register_node_uuid_cmd uuid requested)) s
  = Done (cluster_error success) s1 →
  apply_update raft0 members_table_apply update_brokers
    (node_management_cmd o' (register_node_uuid_cmd uuid requested)) s1
  = Done (cluster_error success) s1.
Proof.
  simpl. unfold bind. destruct requested as [requested|].
  - destruct (decide (requested = unassigned_node_id)) as [->|Hne];
      [by rewrite try_register_unassigned|].
    intros Hrun.
    assert (Hbound : _id_by_uuid s1 !! uuid = Some requested).
    { destruct (_id_by_uuid s !! uuid) as [bound|] eqn:Hl.
      - rewrite (try_register_known _ _ _ _ Hne Hl) in Hrun.
        destruct (bound =? requested) eqn:E; [|done].
        apply Z.eqb_eq in E as ->. by injection Hrun as <-.
      - rewrite (try_register_unknown _ _ _ Hne Hl) in Hrun.
        injection Hrun as <-. simpl. apply lookup_insert_eq. }
    rewrite (try_register_known _ _ _ _ Hne Hbound). by rewrite Z.eqb_refl.
  - destruct (get_or_assign_node_id uuid s) as [[n|] s2|] eqn:Hcall;
      [|done..].
    intros [= <-].
    by rewrite (get_or_assign_bound _ _ _ (get_or_assign_binds _ _ _ _ Hcall)).
Qed.

Lemma apply_update_register_replay_witness :
  let s1 := set_id_by_uuid (<[uuid_1 := 7]>) seed_manager in
  apply_update seed_raft0 forgetful_apply (fun _ _ mt => mt)
    (node_management_cmd 3 (register_node_uuid_cmd uuid_1 (Some 7)))
    seed_manager
  = Done (cluster_error success) s1
  ∧ apply_update seed_raft0 forgetful_apply (fun _ _ mt => mt)
      (node_management_cmd 8 (register_node_uuid_cmd uuid_1 (Some 7))) s1
    = Done (cluster_error success) s1.
Proof.
  intros s1.
  assert (H : apply_update seed_raft0 forgetful_apply (fun _ _ mt => mt)
                (node_management_cmd 3
                   (register_node_uuid_cmd uuid_1 (Some 7))) seed_manager
              = Done (cluster_error success) s1) by (by vm_compute).
  split; [done|].
  exact (apply_update_register_replay _ _ _ 3 8 _ _ _ _ H).
Defined.

(** ** Registry: lookups, initial map, iteration order *)

Lemma get_node_id_bound s uuid id :
  _id_by_uuid s !! uuid = Some id → get_node_id uuid s = Done id s.
Proof. intros H. unfold get_node_id, bind, get, ret. by rewrite H. Qed.

Lemma try_register_binds s requested uuid s1 :
  try_register_node_id requested uuid s = Done true s1 →
  _id_by_uuid s1 !! uuid = Some requested.
Proof.
  intros Hrun.
  destruct (decide (requested = unassigned_node_id)) as [->|Hne];
    [by rewrite try_register_unassigned in Hrun|].
  destruct (_id_by_uuid s !! uuid) as [bound|] eqn:Hl.
  - rewrite (try_register_known _ _ _ _ Hne Hl) in Hrun.
    injection Hrun as Heq <-. apply Z.eqb_eq in Heq. by subst.
  - rewrite (try_register_unknown _ _ _ Hne Hl) in Hrun.
    injection Hrun as <-. simpl. apply lookup_insert_eq.
Qed.

(** X14. Registration and lookup round trip: once
    [try_register_node_id] has returned true for a UUID and an id, or
    [get_or_assign_node_id] has returned an id for the UUID,
    [get_node_id] returns that id for the UUID, without a change, after
    any later registry calls and changes of the members tables; for a
    UUID that is not registered [get_node_id] aborts. *)
Theorem get_node_id_after_registration s uuid id s1 evs s2 :
  try_register_node_id id uuid s = Done true s1
  ∨ get_or_assign_node_id uuid s = Done (Some id) s1 →
  registry_run evs s1 = Some s2 →
  get_node_id uuid s2 = Done id s2
  ∧ ∀ other, _id_by_uuid s2 !! other = None → get_node_id other s2 = Abort.
Proof.
  intros Hreg Hrun. split.
  - apply get_node_id_bound. eapply registry_run_binding; [done|].
    destruct Hreg as [H|H];
      [by eapply try_register_binds | by eapply get_or_assign_binds].
  - intros other Hnone. unfold get_node_id, bind, get. by rewrite Hnone.
Qed.

Lemma get_node_id_after_registration_witness :
  let s := seed_manager in
  let s1 := set_id_by_uuid (<[uuid_1 := 7]>) s in
  ∃ s2,
    try_register_node_id 7 uuid_1 s = Done true s1
    ∧ registry_run [get_or_assign_call uuid_2; try_register_call 9 uuid_1] s1
      = Some s2
    ∧ get_node_id uuid_1 s2 = Done 7 s2
    ∧ get_node_id uuid_2 s2 = Done 1 s2.
Proof.
  intros s s1.
  assert (H1 : try_register_node_id 7 uuid_1 s = Done true s1)
    by (by vm_compute).
  destruct (registry_run [get_or_assign_call uuid_2;
                          try_register_call 9 uuid_1] s1)
    as [s2|] eqn:Hrun; [|by vm_compute in Hrun].
  exists s2. split; [done|]. split; [done|].
  destruct (get_node_id_after_registration s uuid_1 7 s1 _ s2 (or_introl H1)
              Hrun) as [Hid _].
  split; [exact Hid|].
  vm_compute in Hrun. injection Hrun as <-. by vm_compute.
Defined.

Lemma apply_initial_node_uuid_map_unfold s m :
  _id_by_uuid s = ∅ →
  apply_initial_node_uuid_map m s
  = Done tt
      (set_id_by_uuid (fun _ => m)
         (set_next_assigned_id
            (seed_next_assigned_id (map_to_list m).*2 (_next_assigned_id s))
            s)).
Proof.
  intros Hempty. unfold apply_initial_node_uuid_map, bind, get, vassert, modify.
  by rewrite bool_decide_eq_true_2.
Qed.

Lemma registry_step_loaded m floor ev s s' :
  is_try_register ev = false →
  loaded_registry m floor s →
  registry_step ev s = Some s' →
  loaded_registry m floor s'.
Proof.
  intros Hev (Hr & Hinj & Hlt & Hnew) Hstep.
  destruct ev as [requested uuid | uuid | tables]; simpl in *; [done | |].
  - destruct (get_or_assign_node_id uuid s) as [r s1|] eqn:Hcall; [|done].
    injection Hstep as <-.
    destruct (get_or_assign_cases _ _ _ _ (proj2 Hr) Hcall)
      as [[-> _] | [Hnone [(n & _ & Hn & ->) | [_ ->]]]]; [done | |].
    + assert (Hbelow : bound_below_counter s) by (apply Hlt; lia).
      split; [simpl; lia|]. split; [|split].
      * intros u1 u2 k. simpl.
        destruct (decide (uuid = u1)) as [E1|N1];
          destruct (decide (uuid = u2)) as [E2|N2]; [congruence | | |].
        -- subst u1. rewrite lookup_insert_eq, lookup_insert_ne by done.
           intros [= <-] Hu. specialize (Hbelow _ _ Hu). lia.
        -- subst u2. rewrite lookup_insert_ne, lookup_insert_eq by done.
           intros Hu [= <-]. specialize (Hbelow _ _ Hu). lia.
        -- rewrite !lookup_insert_ne by done. apply Hinj.
      * intros _ u k. simpl. destruct (decide (uuid = u)) as [->|N].
        -- rewrite lookup_insert_eq. intros [= <-]. lia.
        -- rewrite lookup_insert_ne by done. intros Hu.
           specialize (Hbelow _ _ Hu). lia.
      * intros u k. simpl. destruct (decide (uuid = u)) as [->|N].
        -- rewrite lookup_insert_eq. intros [= <-] _. lia.
        -- rewrite lookup_insert_ne by done. apply Hnew.
    + split; [simpl; lia|]. split; [done|]. split; [simpl; lia | done].
  - by injection Hstep as <-.
Qed.

Lemma registry_run_loaded m floor evs s s' :
  forallb (fun ev => negb (is_try_register ev)) evs = true →
  loaded_registry m floor s →
  registry_run evs s = Some s' →
  loaded_registry m floor s'.
Proof.
  revert s. induction evs as [|ev evs IH]; intros s Hevs Hinv Hrun;
    simpl in *.
  - by injection Hrun as <-.
  - apply andb_true_iff in Hevs as [Hev Hevs].
    destruct (registry_step ev s) as [s1|] eqn:Hstep; [|done].
    apply (IH s1); [done | | done].
    eapply registry_step_loaded; [|done..]. by destruct (is_try_register ev).
Qed.

(** X15. Loading an initial map and then assigning ids automatically
    never reuses an id: when the initial map binds no id twice (and its
    ids are [int32] values), then after [apply_initial_node_uuid_map]
    and any number of [get_or_assign_node_id] calls, with the members
    tables changing in between, no two UUIDs are bound to the same id,
    and every id given to a UUID outside the initial map is larger than
    every id of the initial map. *)
Theorem apply_initial_then_assign m s0 s1 evs s2 :
  _next_assigned_id s0 ≤ INT_MAX →
  (∀ u id, m !! u = Some id → id ≤ INT_MAX) →
  (∀ u1 u2 id, m !! u1 = Some id → m !! u2 = Some id → u1 = u2) →
  apply_initial_node_uuid_map m s0 = Done tt s1 →
  forallb (fun ev => negb (is_try_register ev)) evs = true →
  registry_run evs s1 = Some s2 →
  registry_injective s2
  ∧ ∀ u n, _id_by_uuid s2 !! u = Some n → m !! u = None →
           ∀ u' id, m !! u' = Some id → id < n.
Proof.
  intros Hnext Hrange Hinj Hload Hevs Hrun.
  destruct (decide (_id_by_uuid s0 = ∅)) as [Hempty|Hne].
  2: { unfold apply_initial_node_uuid_map, bind, get, vassert in Hload.
       by rewrite bool_decide_eq_false_2 in Hload. }
  rewrite (apply_initial_node_uuid_map_unfold _ _ Hempty) in Hload.
  injection Hload as <-.
  destruct (seed_next_assigned_id_spec (map_to_list m).*2
              (_next_assigned_id s0)) as [Hmax Hplain].
  set (floor := seed_next_assigned_id (map_to_list m).*2
                  (_next_assigned_id s0)) in *.
  assert (Hfloor : floor ≤ INT_MAX
                   ∧ (floor < INT_MAX →
                      ∀ u id, m !! u = Some id → id < floor)).
  { destruct (decide (INT_MAX ∈ (map_to_list m).*2)) as [Hin|Hnin].
    - rewrite (Hmax Hin). split; [lia|]. lia.
    - destruct (Hplain Hnin) as (Hle & Hall & Hex). split.
      + destruct Hex as [->|(id & [u Hu]%elem_of_map_ids & ->)]; [done|].
        assert (id ≠ INT_MAX).
        { intros ->. apply Hnin, elem_of_map_ids. eauto. }
        specialize (Hrange _ _ Hu). lia.
      + intros _ u id Hu.
        assert (id + 1 ≤ floor) by (apply Hall, elem_of_map_ids; eauto).
        lia. }
  destruct Hfloor as [Hfloor_le Hfloor_above].
  assert (Hloaded : loaded_registry m floor
            (set_id_by_uuid (fun _ => m) (set_next_assigned_id floor s0))).
  { split; [simpl; lia|]. split; [exact Hinj|]. split.
    - simpl. intros Hlt u id Hu. by apply (Hfloor_above Hlt u).
    - simpl. intros u n Hu Hnone. congruence. }
  destruct (registry_run_loaded m floor evs _ s2 Hevs Hloaded Hrun)
    as (Hr & Hinj2 & Hlt2 & Hnew2).
  split; [done|]. intros u n Hu Hnone u' id Hu'.
  specialize (Hnew2 _ _ Hu Hnone).
  destruct (decide (floor < INT_MAX)) as [Hlt|Hge].
  - specialize (Hfloor_above Hlt _ _ Hu'). lia.
  - (* the counter was at INT_MAX from the start: nothing was assigned *)
    exfalso. assert (floor = INT_MAX) as Hfl by lia.
    assert (Hstuck : ∀ evs s s',
              forallb (fun ev => negb (is_try_register ev)) evs = true →
              _next_assigned_id s = INT_MAX →
              registry_run evs s = Some s' →
              _id_by_uuid s' = _id_by_uuid s
              ∧ _next_assigned_id s' = INT_MAX).
    { clear. induction evs as [|ev evs IH]; intros s s' Hevs Hmax Hrun;
        simpl in *.
      - by injection Hrun as <-.
      - apply andb_true_iff in Hevs as [Hev Hevs].
        destruct (registry_step ev s) as [s1|] eqn:Hstep; [|done].
        assert (_id_by_uuid s1 = _id_by_uuid s
                ∧ _next_assigned_id s1 = INT_MAX) as [Hreg Hmax1].
        { destruct ev as [requested uuid | uuid | tables]; simpl in *;
            [done | |].
          - destruct (get_or_assign_node_id uuid s) as [r s2|] eqn:Hcall;
              [|done]. injection Hstep as <-.
            assert (Hle : _next_assigned_id s ≤ INT_MAX) by lia.
            destruct (get_or_assign_cases _ _ _ _ Hle Hcall)
              as [[-> _] | [_ [(n & _ & Hn & ->) | [_ ->]]]];
              [done | lia | done].
          - by injection Hstep as <-. }
        destruct (IH s1 s' Hevs Hmax1 Hrun) as [Hreg' Hmax']. split; [|done].
        congruence. }
    destruct (Hstuck evs
                (set_id_by_uuid (fun _ => m) (set_next_assigned_id floor s0))
                s2 Hevs Hfl Hrun) as [Hreg _].
    simpl in Hreg. rewrite Hreg in Hu. congruence.
Qed.

Lemma apply_initial_then_assign_witness :
  let m : gmap (list Byte.byte) Z := {[ uuid_1 := 0; uuid_2 := 4 ]} in
  let s0 := fresh_manager empty_table in
  ∃ s1 s2,
    apply_initial_node_uuid_map m s0 = Done tt s1
    ∧ registry_run [get_or_assign_call (uuid_of Byte.x03)] s1 = Some s2
    ∧ _id_by_uuid s2 !! uuid_of Byte.x03 = Some 5
    ∧ registry_injective s2.
Proof.
  intros m s0.
  destruct (apply_initial_node_uuid_map m s0) as [[] s1|] eqn:Hload;
    [|by vm_compute in Hload].
  assert (Hs1 : s1 = set_id_by_uuid (fun _ => m) (set_next_assigned_id 5 s0)).
  { vm_compute in Hload. by injection Hload as <-. }
  destruct (registry_run [get_or_assign_call (uuid_of Byte.x03)] s1)
    as [s2|] eqn:Hrun; [|by rewrite Hs1 in Hrun; vm_compute in Hrun].
  exists s1, s2. split; [done|]. split; [done|].
  assert (Hrange : ∀ u id, m !! u = Some id → id ≤ INT_MAX).
  { intros u id. unfold m.
    rewrite lookup_insert. case_decide; [intros [= <-]; by vm_compute|].
    rewrite lookup_singleton. case_decide; [intros [= <-]; by vm_compute|].
    done. }
  assert (Hinj : ∀ u1 u2 id, m !! u1 = Some id → m !! u2 = Some id → u1 = u2).
  { intros u1 u2 id. unfold m. rewrite !lookup_insert, !lookup_singleton.
    repeat case_decide; congruence. }
  assert (Hnext : _next_assigned_id s0 ≤ INT_MAX) by (by vm_compute).
  destruct (apply_initial_then_assign m s0 s1
              [get_or_assign_call (uuid_of Byte.x03)] s2 Hnext
              Hrange Hinj Hload eq_refl Hrun) as [Hinj2 _].
  split; [|exact Hinj2].
  rewrite Hs1 in Hrun. vm_compute in Hrun. injection Hrun as <-.
  by vm_compute.
Defined.

(** X16. The counter that [apply_initial_node_uuid_map] computes does
    not depend on the order in which the initial map is iterated: the
    loop gives the same value on every arrangement of the same ids. *)
Theorem seed_next_assigned_id_order ids ids' next :
  ids ≡ₚ ids' →
  seed_next_assigned_id ids next = seed_next_assigned_id ids' next.
Proof.
  intros Hperm.
  assert (Hin : ∀ id, id ∈ ids ↔ id ∈ ids') by (intros id; by rewrite Hperm).
  destruct (seed_next_assigned_id_spec ids next) as [Hmax Hplain].
  destruct (seed_next_assigned_id_spec ids' next) as [Hmax' Hplain'].
  cbv zeta in *.
  destruct (decide (INT_MAX ∈ ids)) as [Hi|Hni].
  - rewrite (Hmax Hi). symmetry. apply Hmax'. by apply Hin.
  - destruct (Hplain Hni) as (Hle & Hall & Hex).
    destruct Hplain' as (Hle' & Hall' & Hex'); [by rewrite <- Hin|].
    apply Z.le_antisymm.
    + destruct Hex as [->|(id & Hid & ->)]; [done|]. by apply Hall', Hin.
    + destruct Hex' as [->|(id & Hid & ->)]; [done|]. by apply Hall, Hin.
Qed.

Lemma seed_next_assigned_id_order_witness :
  [3; 7; 5] ≡ₚ [7; 5; 3]
  ∧ seed_next_assigned_id [3; 7; 5] 1 = seed_next_assigned_id [7; 5; 3] 1.
Proof.
  assert (H : [3; 7; 5] ≡ₚ [7; 5; 3]).
  { change [3; 7; 5] with ([3] ++ [7; 5]).
    change [7; 5; 3] with ([7; 5] ++ [3]). apply Permutation_app_comm. }
  split; [exact H|]. exact (seed_next_assigned_id_order _ _ 1 H).
Defined.

(** X17. The verdict of [check_result_configuration] does not depend
    on the order in which the members table is iterated: a conflict is
    reported on one arrangement of the entries exactly when it is
    reported on any other (which entry is named may differ). *)
Theorem first_conflict_order to_update entries entries' :
  entries ≡ₚ entries' →
  is_Some (first_conflict to_update entries)
  ↔ is_Some (first_conflict to_update entries').
Proof.
  intros Hperm. rewrite !first_conflict_spec.
  split; intros (e & He & Hc); exists e; split; try done.
  - by rewrite <- Hperm.
  - by rewrite Hperm.
Qed.

Lemma first_conflict_order_witness :
  let e0 := (0, sample_entry self_broker) in
  let e1 := (1, sample_entry (sample_broker 1 4 33146 9093)) in
  let update := sample_broker 2 4 33146 9094 in
  [e0; e1] ≡ₚ [e1; e0]
  ∧ first_conflict update [e0; e1] = Some (duplicate_rpc_endpoint 1)
  ∧ is_Some (first_conflict update [e1; e0]).
Proof.
  intros e0 e1 update.
  assert (H : [e0; e1] ≡ₚ [e1; e0]) by apply perm_swap.
  split; [exact H|]. split; [by vm_compute|].
  apply (first_conflict_order update _ _ H). by vm_compute; eauto.
Defined.

(** ** Join requests: replies and effects *)

Lemma same_but_connections_refl s : same_but_connections s s.
Proof. by repeat split. Qed.

Lemma handle_configuration_update_request_effects raft0 update_rpc req s :
  ∃ r s', handle_configuration_update_request raft0 update_rpc req s
          = Done r s'
          ∧ same_but_connections s s'.
Proof.
  unfold handle_configuration_update_request, bind, get, modify, ret.
  destruct (negb _); [eauto using same_but_connections_refl|].
  destruct (check_result_configuration _ _);
    [eauto using same_but_connections_refl|].
  assert (Hsame : same_but_connections s
            (set_connection_cache
               (update_connections (broker_id (_self s))
                  (mk_changed_nodes [] [update_node req] [])) s)).
  { repeat split. simpl. apply update_connections_lookup_self. }
  destruct (get_leader_id raft0) as [leader_id|]; [|eauto].
  destruct (leader_id =? _); [destruct (negb _); eauto|].
  destruct (get_node_metadata_ref _ _); eauto.
Qed.

(** The replies of the last part of [handle_join_request]. *)
Lemma join_group_effects raft0 active update_rpc req s :
  ∃ r s', join_group raft0 active update_rpc req s = Done r s'
          ∧ same_but_connections s s'
          ∧ ∀ reply, r = value reply →
              if join_success reply
              then join_id reply = broker_id (node req)
              else join_id reply = unassigned_node_id.
Proof.
  unfold join_group, bind, get, modify, ret.
  destruct (contains_broker _ _).
  - destruct (handle_configuration_update_request_effects raft0 update_rpc
                (mk_configuration_update_request (node req)
                   (broker_id (_self s))) s) as (r & s' & -> & Hsame).
    destruct r as [[success_]|ec]; eexists _, s';
      (split; [done|]); (split; [done|]).
    + intros reply [= <-]. by destruct success_.
    + by intros reply.
  - destruct (_ && _).
    + eexists _, s. split; [done|]. split; [apply same_but_connections_refl|].
      by intros reply [= <-].
    + assert (Hsame : same_but_connections s
                (set_connection_cache
                   (update_broker_client (broker_id (node req))
                      (rpc_address (node req))) s)
              ∨ broker_id (node req) = broker_id (_self s)).
      { destruct (decide (broker_id (node req) = broker_id (_self s)));
          [by right|]. left. repeat split. simpl.
        unfold update_broker_client. by rewrite lookup_insert_ne. }
      destruct (negb (broker_id (node req) =? broker_id (_self s))) eqn:E.
      * apply negb_true_iff, Z.eqb_neq in E.
        destruct Hsame as [Hsame|]; [|done].
        destruct (add_group_members _ _ _ =? 0); eexists _, _;
          (split; [done|]); (split; [done|]).
        -- by intros reply [= <-].
        -- by intros reply.
      * destruct (add_group_members _ _ _ =? 0); eexists _, s;
          (split; [done|]); (split; [apply same_but_connections_refl|]).
        -- by intros reply [= <-].
        -- by intros reply.
Qed.

Lemma get_node_id_unbound s uuid :
  _id_by_uuid s !! uuid = None → get_node_id uuid s = Abort.
Proof. intros H. unfold get_node_id, bind, get. by rewrite H. Qed.

Lemma replicate_new_node_uuid_reply replicate uuid node_id r s s' :
  replicate_new_node_uuid replicate uuid node_id s = Done r s' →
  ∀ reply, r = value reply →
    join_success reply = true
    ∧ _id_by_uuid s' !! uuid = Some (join_id reply)
    ∧ ∀ requested, node_id = Some requested → join_id reply = requested.
Proof.
  unfold replicate_new_node_uuid, bind, ret.
  destruct (replicate _ s) as [ec s1|]; [|done].
  case_bool_decide; [by intros [= <- <-] reply|].
  destruct (_id_by_uuid s1 !! uuid) as [id|] eqn:Hl.
  - rewrite (get_node_id_bound _ _ _ Hl).
    destruct node_id as [requested|].
    + destruct (negb (id =? requested)) eqn:E;
        [by intros [= <- <-] reply|].
      apply negb_false_iff, Z.eqb_eq in E.
      rewrite (get_node_id_bound _ _ _ Hl).
      intros [= <- <-] reply [= <-]. simpl. split; [done|]. split; [done|].
      by intros ? [= <-].
    + rewrite (get_node_id_bound _ _ _ Hl).
      intros [= <- <-] reply [= <-]. simpl. by repeat split.
  - by rewrite (get_node_id_unbound _ _ Hl).
Qed.

(** X18. [replicate_new_node_uuid] never answers with a refusal:
    whatever the replication does, a reply carries [success = true] and
    the id that the registry then holds for the UUID, which is the
    requested id when one was requested; every other outcome is an error
    code. *)
Theorem replicate_new_node_uuid_spec replicate uuid node_id r s s' :
  replicate_new_node_uuid replicate uuid node_id s = Done r s' →
  match r with
  | value reply =>
      join_success reply = true
      ∧ _id_by_uuid s' !! uuid = Some (join_id reply)
      ∧ ∀ requested, node_id = Some requested → join_id reply = requested
  | error _ => True
  end.
Proof.
  intros Hrun. destruct r as [reply|ec]; [|done].
  by eapply replicate_new_node_uuid_reply.
Qed.

Lemma replicate_new_node_uuid_spec_witness :
  let s' := set_next_assigned_id 2
              (set_id_by_uuid (<[uuid_1 := 1]>) seed_manager) in
  replicate_new_node_uuid (replicate_locally seed_raft0) uuid_1 None
    seed_manager
  = Done (value (mk_join_node_reply true 1)) s'
  ∧ _id_by_uuid s' !! uuid_1 = Some 1.
Proof.
  intros s'.
  assert (H : replicate_new_node_uuid (replicate_locally seed_raft0) uuid_1
                None seed_manager
              = Done (value (mk_join_node_reply true 1)) s')
    by (by vm_compute).
  split; [done|].
  exact (proj1 (proj2 (replicate_new_node_uuid_spec _ _ _ _ _ _ H))).
Defined.

(** X19. [handle_join_request] refuses a malformed request with
    [invalid_request] before it looks at leadership, registry or
    configuration, and changes nothing: a request without UUID while
    node id assignment is active, a request without node id while it is
    not, and a request whose UUID is not 16 bytes long. *)
Theorem handle_join_request_invalid
    raft0 active replicate join_rpc update_rpc req s :
  (active = true ∧ node_uuid req = [])
  ∨ (active = false ∧ broker_id (node req) < 0)
  ∨ (node_uuid req ≠ [] ∧ length (node_uuid req) ≠ node_uuid_length) →
  handle_join_request raft0 active replicate join_rpc update_rpc req s
  = Done (error (cluster_error invalid_request)) s.
Proof.
  unfold handle_join_request.
  intros [[-> Hnil] | [[-> Hneg] | [Hne Hlen]]].
  - by rewrite Hnil.
  - simpl.
    replace (0 <=? broker_id (node req)) with false
      by (symmetry; apply Z.leb_gt; lia).
    done.
  - rewrite (bool_decide_eq_false_2 _ Hne). simpl.
    destruct (active && false) eqn:E1; [by destruct active|].
    destruct (negb active && _) eqn:E2; [done|].
    replace (length (node_uuid req) =? node_uuid_length)%nat with false
      by (symmetry; by apply Nat.eqb_neq).
    done.
Qed.

Lemma handle_join_request_invalid_witness :
  let req := mk_join_node_request 7 [Byte.x01; Byte.x02]
               (sample_broker 1 4 33146 9093) in
  ((true = true ∧ node_uuid req = [])
   ∨ (true = false ∧ broker_id (node req) < 0)
   ∨ (node_uuid req ≠ [] ∧ length (node_uuid req) ≠ node_uuid_length))
  ∧ handle_join_request seed_raft0 true (replicate_locally seed_raft0)
      unreachable_peer unreachable_peer req seed_manager
    = Done (error (cluster_error invalid_request)) seed_manager.
Proof.
  intros req.
  assert (H : (true = true ∧ node_uuid req = [])
              ∨ (true = false ∧ broker_id (node req) < 0)
              ∨ (node_uuid req ≠ []
                 ∧ length (node_uuid req) ≠ node_uuid_length)).
  { right. right. split; [done|]. simpl. unfold node_uuid_length. lia. }
  split; [exact H|].
  exact (handle_join_request_invalid seed_raft0 true
           (replicate_locally seed_raft0) unreachable_peer unreachable_peer
           req seed_manager H).
Defined.

(** X20. A node that is not the elected leader handles no join request
    itself: it changes nothing, and its answer is [invalid_request] for
    a malformed request and otherwise what forwarding to the leader
    gives; when no leader is known that is [no_leader_controller]. *)
Theorem handle_join_request_not_leader
    raft0 active replicate join_rpc update_rpc req s :
  is_elected_leader raft0 = false →
  ∃ r, handle_join_request raft0 active replicate join_rpc update_rpc req s
       = Done r s
       ∧ (r = error (cluster_error invalid_request)
          ∨ r = dispatch_rpc_to_leader raft0 join_rpc req)
       ∧ (get_leader_id raft0 = None →
          r = error (cluster_error invalid_request)
          ∨ r = error (cluster_error no_leader_controller)).
Proof.
  intros Hleader. unfold handle_join_request. rewrite Hleader. simpl.
  assert (Hfwd : get_leader_id raft0 = None →
                 dispatch_rpc_to_leader raft0 join_rpc req
                 = error (cluster_error no_leader_controller)).
  { intros Hnone. unfold dispatch_rpc_to_leader. by rewrite Hnone. }
  repeat match goal with
         | |- context [if ?b then _ else _] =>
             destruct b;
             [eexists; split; [reflexivity|]; split; [by left | by left]|]
         end.
  eexists. split; [reflexivity|]. split; [by right|].
  intros Hnone. right. by apply Hfwd.
Qed.

Lemma handle_join_request_not_leader_witness :
  is_elected_leader follower_raft0 = false
  ∧ handle_join_request follower_raft0 true
      (replicate_locally follower_raft0) unreachable_peer unreachable_peer
      (mk_join_node_request 7 uuid_1 (sample_broker 1 4 33146 9093))
      seed_manager
    = Done (error (cluster_error no_leader_controller)) seed_manager.
Proof.
  split; [done|].
  destruct (handle_join_request_not_leader follower_raft0 true
              (replicate_locally follower_raft0) unreachable_peer
              unreachable_peer
              (mk_join_node_request 7 uuid_1 (sample_broker 1 4 33146 9093))
              seed_manager eq_refl) as (r & Hr & _ & _).
  rewrite Hr. by vm_compute in Hr.
Defined.

Lemma join_registration_early replicate uuid req_node_id early s s1 :
  join_registration replicate uuid req_node_id s = Done early s1 →
  ∀ r reply, early = Some r → r = value reply →
    (join_success reply = true ∧ req_node_id = None)
    ∨ reply = mk_join_node_reply false unassigned_node_id.
Proof.
  unfold join_registration, bind, get, ret.
  destruct req_node_id as [requested|];
    destruct (_id_by_uuid s !! uuid) as [bound|].
  - destruct (negb _); [intros [= <- <-] r reply [= <-] [= <-]; by right|].
    destruct (has_value _); intros [= <- <-] r reply; [|done].
    intros [= <-] [= <-]. by right.
  - destruct (replicate_new_node_uuid _ _ _ s) as [r0 s2|] eqn:Hrep; [|done].
    destruct r0 as [reply0|ec].
    + destruct (replicate_new_node_uuid_reply _ _ _ _ _ _ Hrep reply0 eq_refl)
        as (Hsucc & _). rewrite Hsucc. simpl. by intros [= <- <-] r reply.
    + intros [= <- <-] r reply [= <-]. done.
  - intros [= <- <-] r reply [= <-] [= <-]. by left.
  - destruct (replicate_new_node_uuid _ _ _ s) as [r0 s2|] eqn:Hrep; [|done].
    intros [= <- <-] r reply [= <-] ->.
    destruct (replicate_new_node_uuid_reply _ _ _ _ _ _ Hrep reply eq_refl)
      as (Hsucc & _). by left.
Qed.

(** X21. On the elected leader a reply of [handle_join_request] has one
    of two shapes: a refusal always carries [unassigned_node_id], and a
    reply with [success = true] to a request that asked for a node id
    carries exactly that id. *)
Theorem handle_join_request_reply_shape
    raft0 active replicate join_rpc update_rpc req reply s s' :
  is_elected_leader raft0 = true →
  handle_join_request raft0 active replicate join_rpc update_rpc req s
  = Done (value reply) s' →
  if join_success reply
  then 0 ≤ broker_id (node req) → join_id reply = broker_id (node req)
  else join_id reply = unassigned_node_id.
Proof.
  intros Hleader. unfold handle_join_request. rewrite Hleader. simpl.
  assert (Hgroup : ∀ s0 s1,
            join_group raft0 active update_rpc req s0 = Done (value reply) s1 →
            if join_success reply
            then 0 ≤ broker_id (node req) → join_id reply = broker_id (node req)
            else join_id reply = unassigned_node_id).
  { intros s0 s1 Hrun.
    destruct (join_group_effects raft0 active update_rpc req s0)
      as (r & s2 & Hr & _ & Hshape).
    rewrite Hr in Hrun. injection Hrun as -> <-.
    specialize (Hshape reply eq_refl). by destruct (join_success reply). }
  unfold ret.
  repeat match goal with
         | |- (if ?b then _ else _) s = _ → _ =>
             destruct b eqn:?; [by intros [=]|]
         end.
  destruct (active && negb (bool_decide (node_uuid req = [])));
    [|by apply Hgroup].
  unfold bind.
  destruct (join_registration _ _ _ s) as [[r|] s1|] eqn:Hreg; [| |done].
  - intros [= -> <-].
    destruct (join_registration_early _ _ _ _ _ _ Hreg _ reply eq_refl
                eq_refl) as [[-> Hnone]| ->]; [|done].
    intros Hid. apply Z.leb_le in Hid. by rewrite Hid in Hnone.
  - by apply Hgroup.
Qed.

Lemma handle_join_request_reply_shape_witness :
  let req := mk_join_node_request 7 uuid_1 (sample_broker 1 4 33146 9093) in
  let s := set_next_assigned_id 2
             (set_id_by_uuid (<[uuid_1 := 1]>) seed_manager) in
  ∃ reply s',
    is_elected_leader seed_raft0 = true
    ∧ handle_join_request seed_raft0 true (replicate_locally seed_raft0)
        unreachable_peer unreachable_peer req s
      = Done (value reply) s'
    ∧ join_success reply = true
    ∧ join_id reply = 1.
Proof.
  intros req s.
  destruct (handle_join_request seed_raft0 true (replicate_locally seed_raft0)
              unreachable_peer unreachable_peer req s)
    as [[reply|ec] s'|] eqn:Hrun;
    [|by vm_compute in Hrun|by vm_compute in Hrun].
  exists reply, s'. split; [done|]. split; [done|].
  pose proof (handle_join_request_reply_shape seed_raft0 _ _ _ _ _ _ _ _
                eq_refl Hrun) as Hshape.
  assert (Hsucc : join_success reply = true).
  { vm_compute in Hrun. by injection Hrun as <- _. }
  split; [done|]. rewrite Hsucc in Hshape. apply Hshape. simpl. lia.
Defined.

(** X22. While node id assignment is not active, [handle_join_request]
    has nothing to do with the registry: its outcome does not depend on
    the replication of registrations, it always completes, and it leaves
    the manager as it was but for connections to other nodes. *)
Theorem handle_join_request_feature_inactive
    raft0 replicate replicate' join_rpc update_rpc req s :
  handle_join_request raft0 false replicate join_rpc update_rpc req s
  = handle_join_request raft0 false replicate' join_rpc update_rpc req s
  ∧ ∃ r s', handle_join_request raft0 false replicate join_rpc update_rpc
              req s = Done r s'
            ∧ same_but_connections s s'.
Proof.
  split; [reflexivity|]. unfold handle_join_request. simpl.
  repeat match goal with
         | |- context [if ?b then _ else _] =>
             destruct b;
             [eexists _, s; split; [reflexivity|];
              apply same_but_connections_refl|]
         end.
  destruct (join_group_effects raft0 false update_rpc req s)
    as (r & s' & Hr & Hsame & _). eauto.
Qed.

(** ** Joining through the seed servers *)

(** X23. [dispatch_join_to_seed_server] ends in one of two ways only:
    with the reply of a seed server that accepted the request
    ([success = true]), or with [seed_servers_exhausted]; refusals and
    errors of single seed servers are never passed on. With no seed
    servers it is [seed_servers_exhausted] at once. *)
Theorem dispatch_join_to_seed_server_result
    raft0 active replicate join_rpc update_rpc remote seeds req r s s' :
  dispatch_join_to_seed_server raft0 active replicate join_rpc update_rpc
    remote seeds req s = Done r s' →
  (seeds = [] → r = error (cluster_error seed_servers_exhausted) ∧ s' = s)
  ∧ (r = error (cluster_error seed_servers_exhausted)
     ∨ ∃ reply, r = value reply ∧ join_success reply = true).
Proof.
  revert s. induction seeds as [|it rest IH]; intros s; simpl.
  - intros [= <- <-]. split; [done | by left].
  - unfold bind, get, ret. intros Hrun. split; [done|].
    assert (Hrest : ∀ s1,
              dispatch_join_to_seed_server raft0 active replicate join_rpc
                update_rpc remote rest req s1 = Done r s' →
              r = error (cluster_error seed_servers_exhausted)
              ∨ ∃ reply, r = value reply ∧ join_success reply = true).
    { intros s1 H. by destruct (IH s1 H). }
    case_bool_decide.
    + destruct (handle_join_request _ _ _ _ _ _ s) as [[reply|ec] s1|];
        [| by eapply Hrest | done].
      destruct (join_success reply) eqn:Hs; [|by eapply Hrest].
      injection Hrun as <- <-. right. eauto.
    + destruct (remote it req) as [reply|v|]; try by eapply Hrest.
      destruct (join_success reply) eqn:Hs; [|by eapply Hrest].
      injection Hrun as <- <-. right. eauto.
Qed.

Lemma dispatch_join_to_seed_server_result_witness :
  let req := mk_join_node_request 7 uuid_1
               (sample_broker unassigned_node_id 4 33150 9099) in
  dispatch_join_to_seed_server follower_raft0 true never_replicated
    unreachable_peer unreachable_peer one_good_seed
    [seed_of 33145; seed_of 33147] req seed_manager
  = Done (error (cluster_error seed_servers_exhausted)) seed_manager.
Proof.
  intros req.
  destruct (dispatch_join_to_seed_server follower_raft0 true never_replicated
              unreachable_peer unreachable_peer one_good_seed
              [seed_of 33145; seed_of 33147] req seed_manager)
    as [r s'|] eqn:Hrun; [|by vm_compute in Hrun].
  pose proof (dispatch_join_to_seed_server_result _ _ _ _ _ _ _ _ _ _ _ Hrun)
    as [_ Hshape].
  vm_compute in Hrun. injection Hrun as <- <-.
  by destruct Hshape as [Hr | (reply & Hr & Hs)].
Defined.

(** X24. [dispatch_join_to_seed_server] stops at the first seed server
    that accepts: when the seed servers before it are other nodes that
    fail (error, refusal or exception) and it is another node that
    replies with [success = true], that reply is the result, the
    manager is unchanged, and the seed servers after it play no part. *)
Theorem dispatch_join_to_seed_server_first_success
    raft0 active replicate join_rpc update_rpc remote
    before it after req reply s :
  (∀ sd, sd ∈ before →
         seed_addr sd ≠ rpc_address (_self s) ∧ seed_fails remote req sd) →
  seed_addr it ≠ rpc_address (_self s) →
  remote it req = rpc_reply reply →
  join_success reply = true →
  dispatch_join_to_seed_server raft0 active replicate join_rpc update_rpc
    remote (before ++ it :: after) req s
  = Done (value reply) s.
Proof.
  intros Hbefore Hit Hreply Hsucc.
  induction before as [|sd before IH]; simpl.
  - unfold bind, get, ret. rewrite (bool_decide_eq_false_2 _ Hit).
    by rewrite Hreply, Hsucc.
  - unfold bind, get, ret.
    destruct (Hbefore sd) as [Hsd Hfail]; [by left|].
    rewrite (bool_decide_eq_false_2 _ Hsd).
    assert (Hrest : dispatch_join_to_seed_server raft0 active replicate
                      join_rpc update_rpc remote (before ++ it :: after)
                      req s = Done (value reply) s)
      by (apply IH; intros sd' ?; apply Hbefore; by right).
    destruct (remote sd req) as [reply'|v|] eqn:Hr; simpl; [|done..].
    by rewrite (Hfail reply' Hr).
Qed.

Lemma dispatch_join_to_seed_server_first_success_witness :
  let req := mk_join_node_request 7 uuid_1
               (sample_broker unassigned_node_id 4 33150 9099) in
  dispatch_join_to_seed_server follower_raft0 true never_replicated
    unreachable_peer unreachable_peer one_good_seed
    ([seed_of 33147] ++ seed_of 33146 :: [seed_of 33145]) req seed_manager
  = Done (value (mk_join_node_reply true 3)) seed_manager.
Proof.
  intros req.
  apply dispatch_join_to_seed_server_first_success.
  - intros sd ->%list_elem_of_singleton. split; [done|].
    intros reply H. by vm_compute in H.
  - done.
  - done.
  - done.
Defined.

(** ** Configuration updates: the target *)

(** X25. [get_update_request_target] always picks a broker of the list
    it is given (the random index being within the list), and it picks
    a broker with the leader's id whenever the leader is known and among
    the brokers. *)
Theorem get_update_request_target_spec current_leader brokers_ random_index :
  (random_index < length brokers_)%nat →
  ∃ target,
    get_update_request_target current_leader brokers_ random_index
    = Some target
    ∧ target ∈ brokers_
    ∧ ∀ leader, current_leader = Some leader →
        (∃ b, b ∈ brokers_ ∧ broker_id b = leader) →
        broker_id target = leader.
Proof.
  intros Hidx. unfold get_update_request_target.
  destruct (lookup_lt_is_Some_2 brokers_ random_index Hidx) as [b Hb].
  assert (Hin : b ∈ brokers_) by (by eapply list_elem_of_lookup_2).
  destruct current_leader as [leader|].
  - destruct (find _ brokers_) as [t|] eqn:Hfind.
    + apply find_some in Hfind as [Ht Hid]. apply Z.eqb_eq in Hid.
      exists t. split; [done|]. split; [by apply list_elem_of_In|].
      by intros ? [= <-] _.
    + exists b. split; [done|]. split; [done|].
      intros ? [= <-] (b' & Hb' & Hid'). exfalso.
      apply list_elem_of_In in Hb'.
      pose proof (find_none _ _ Hfind b' Hb') as Hn. simpl in Hn.
      by apply Z.eqb_neq in Hn.
  - exists b. split; [done|]. split; [done|]. by intros.
Qed.

Lemma get_update_request_target_spec_witness :
  let bs := [self_broker; sample_broker 1 4 33146 9093;
             sample_broker 2 4 33147 9094] in
  (1 < length bs)%nat
  ∧ get_update_request_target (Some 2) bs 1
    = Some (sample_broker 2 4 33147 9094)
  ∧ get_update_request_target (Some 9) bs 1
    = Some (sample_broker 1 4 33146 9093).
Proof.
  intros bs. assert (Hidx : (1 < length bs)%nat) by (simpl; lia).
  split; [exact Hidx|].
  destruct (get_update_request_target_spec (Some 2) bs 1 Hidx)
    as (target & Ht & Hin & Hleader).
  split; [|by vm_compute].
  rewrite Ht. vm_compute in Ht. by injection Ht as <-.
Defined.

(** X26. One round of a configuration update on the leader: when this
    node is the known leader and a broker of the configuration, the
    target is this node whatever the random index, the update is
    handled without any RPC, and for an update that conflicts with no
    entry of the members table the answer is that of the consensus
    layer: [success = true] when [update_group_member] succeeds, its
    error code otherwise. *)
Theorem dispatch_configuration_update_on_leader
    raft0 update_rpc updated_cfg random_index s :
  get_leader_id raft0 = Some (broker_id (_self s)) →
  (∃ b, b ∈ brokers (config raft0) ∧ broker_id b = broker_id (_self s)) →
  (¬ ∃ id current, nodes (local (_members_table s)) !! id = Some current
                   ∧ conflicts_with updated_cfg id current) →
  ∃ target s',
    get_update_request_target (get_leader_id raft0) (brokers (config raft0))
      random_index = Some target
    ∧ broker_id target = broker_id (_self s)
    ∧ do_dispatch_configuration_update raft0 update_rpc target updated_cfg s
      = Done (attempt_result
                (if update_group_member raft0 updated_cfg =? 0
                 then value (mk_configuration_update_reply true)
                 else error (raft_error
                               (update_group_member raft0 updated_cfg)))) s'
    ∧ same_but_connections s s'.
Proof.
  intros Hleader (b & Hb & Hid) Hok.
  unfold get_update_request_target. rewrite Hleader.
  destruct (find _ (brokers (config raft0))) as [target|] eqn:Hfind.
  2: { exfalso. apply list_elem_of_In in Hb.
       pose proof (find_none _ _ Hfind b Hb) as Hn. simpl in Hn.
       by apply Z.eqb_neq in Hn. }
  apply find_some in Hfind as [_ Htarget]. apply Z.eqb_eq in Htarget.
  assert (Hcheck : check_result_configuration
                     (nodes (local (_members_table s))) updated_cfg = None).
  { destruct (check_result_configuration _ _) as [c|] eqn:Hc; [|done].
    exfalso. apply Hok, check_result_configuration_spec. by rewrite Hc. }
  exists target. eexists. split; [done|]. split; [done|].
  unfold do_dispatch_configuration_update, bind, get, ret.
  rewrite (proj2 (Z.eqb_eq _ _) Htarget).
  unfold handle_configuration_update_request, bind, get, modify, ret.
  simpl. rewrite Z.eqb_refl, Hcheck, Hleader. simpl. rewrite Z.eqb_refl.
  destruct (update_group_member raft0 updated_cfg =? 0); simpl;
    (split; [reflexivity|]); repeat split; simpl;
    apply update_connections_lookup_self.
Qed.

Lemma dispatch_configuration_update_on_leader_witness :
  let updated := sample_broker 0 16 33145 9092 in
  get_leader_id seed_raft0 = Some (broker_id (_self seed_manager))
  ∧ ∃ s',
      do_dispatch_configuration_update seed_raft0 unreachable_peer
        self_broker updated seed_manager
      = Done (attempt_result (value (mk_configuration_update_reply true))) s'.
Proof.
  intros updated. split; [done|].
  destruct (dispatch_configuration_update_on_leader seed_raft0
              unreachable_peer updated 0%nat seed_manager eq_refl)
    as (target & s' & Ht & _ & Hrun & _).
  - exists self_broker. split; [by left | done].
  - intros (id & current & Hl & Hc).
    assert (id = 0 ∧ current = sample_entry self_broker) as [-> ->].
    { unfold seed_manager, fresh_manager, sample_table in Hl. simpl in Hl.
      apply lookup_insert_Some in Hl as [[<- <-]|[_ Hl]]; [done|].
      by rewrite lookup_empty in Hl. }
    destruct Hc as [[_ Hc]|[Hc _]]; [simpl in Hc; lia | done].
  - vm_compute in Ht. injection Ht as <-. exists s'. exact Hrun.
Defined.

(** ** The two steps of a join *)

(** X27. The two steps of joining fit together. When the leader, with
    node id assignment active, answers a request that has a 16-byte UUID
    unknown so far and no node id, and registrations are applied through
    [apply_update], then the reply is [success = true] with an id that
    is neither a member nor a tombstone, the registry binds the UUID to
    that id, and a second request with the same UUID and that id passes
    the registry checks of [handle_join_request]. *)
Theorem join_assigned_id_is_accepted
    raft0 members_table_apply update_brokers o join_rpc update_rpc
    req r s s1 :
  let replicate := fun cmd =>
    apply_update raft0 members_table_apply update_brokers
      (node_management_cmd o cmd) in
  is_elected_leader raft0 = true →
  length (node_uuid req) = node_uuid_length →
  broker_id (node req) < 0 →
  _id_by_uuid s !! node_uuid req = None →
  handle_join_request raft0 true replicate join_rpc update_rpc req s
  = Done r s1 →
  r = error (cluster_error invalid_node_operation)
  ∨ ∃ id, r = value (mk_join_node_reply true id)
          ∧ id_in_use (local (_members_table s)) id = false
          ∧ _id_by_uuid s1 !! node_uuid req = Some id
          ∧ join_registration replicate (node_uuid req) (Some id) s1
            = Done None s1.
Proof.
  intros replicate Hleader Hlen Hneg Hnone.
  unfold handle_join_request.
  assert (Huuid : bool_decide (node_uuid req = []) = false).
  { apply bool_decide_eq_false. intros E. by rewrite E in Hlen. }
  rewrite Huuid, Hlen, Hleader. simpl.
  replace (0 <=? broker_id (node req)) with false
    by (symmetry; apply Z.leb_gt; lia).
  simpl.
  pose proof (skip_used_ids_spec (local (_members_table s))
                (_next_assigned_id s)) as Hscan.
  assert (Hrep : replicate_new_node_uuid replicate (node_uuid req) None s
            = match skip_used_ids (local (_members_table s))
                      (_next_assigned_id s) with
              | returned_nullopt next =>
                  Done (error (cluster_error invalid_node_operation))
                    (set_next_assigned_id next s)
              | condition_false next =>
                  if next =? INT_MAX then
                    Done (error (cluster_error invalid_node_operation))
                      (set_next_assigned_id next s)
                  else
                    Done (value (mk_join_node_reply true next))
                      (set_next_assigned_id (next + 1)
                         (set_id_by_uuid (<[node_uuid req := next]>) s))
              end).
  { unfold replicate_new_node_uuid, bind, replicate. simpl. unfold bind.
    rewrite (get_or_assign_unbound _ _ Hnone).
    destruct (skip_used_ids _ _) as [m|m]; [done|].
    destruct (m =? INT_MAX); [done|]. unfold ret.
    rewrite bool_decide_eq_false_2 by (by intros []).
    assert (Hbound : _id_by_uuid
                       (set_next_assigned_id (m + 1)
                          (set_id_by_uuid (<[node_uuid req := m]>) s))
                     !! node_uuid req = Some m) by apply lookup_insert_eq.
    by rewrite !(get_node_id_bound _ _ _ Hbound). }
  assert (Hreg : join_registration replicate (node_uuid req) None s
            = match replicate_new_node_uuid replicate (node_uuid req) None s
              with
              | Done r0 s' => Done (Some r0) s'
              | Abort => Abort
              end).
  { unfold join_registration, bind, get, ret. by rewrite Hnone. }
  unfold bind at 1. rewrite Hreg, Hrep. unfold ret.
  destruct (skip_used_ids _ _) as [m|m]; [intros [= <- <-]; by left|].
  destruct Hscan as (_ & Hfree & _).
  destruct (m =? INT_MAX); [intros [= <- <-]; by left|].
  intros [= <- <-]. right. exists m. split; [done|]. split; [done|].
  split; [apply lookup_insert_eq|].
  unfold join_registration, bind, get, ret. simpl.
  rewrite lookup_insert_eq, Z.eqb_refl. simpl.
  unfold id_in_use in Hfree. apply orb_false_iff in Hfree as [_ Hremoved].
  by rewrite Hremoved.
Qed.

Lemma join_assigned_id_is_accepted_witness :
  let req := mk_join_node_request 7 uuid_1
               (sample_broker unassigned_node_id 4 33146 9093) in
  let s1 := set_next_assigned_id 2
              (set_id_by_uuid (<[uuid_1 := 1]>) seed_manager) in
  handle_join_request seed_raft0 true (replicate_locally seed_raft0)
    unreachable_peer unreachable_peer req seed_manager
  = Done (value (mk_join_node_reply true 1)) s1
  ∧ join_registration (replicate_locally seed_raft0) uuid_1 (Some 1) s1
    = Done None s1.
Proof.
  intros req s1.
  assert (Hrun : handle_join_request seed_raft0 true
                   (replicate_locally seed_raft0) unreachable_peer
                   unreachable_peer req seed_manager
                 = Done (value (mk_join_node_reply true 1)) s1)
    by (by vm_compute).
  split; [done|].
  assert (Hneg : broker_id (node req) < 0) by (by vm_compute).
  destruct (join_assigned_id_is_accepted seed_raft0 forgetful_apply
              (fun _ _ mt => mt) 1 unreachable_peer unreachable_peer req
              (value (mk_join_node_reply true 1))
              seed_manager s1 eq_refl eq_refl Hneg eq_refl Hrun)
    as [Herr | (id & Hr & _ & _ & Hsecond)]; [done|].
  injection Hr as <-. exact Hsecond.
Defined.

(** ** Delivery of node updates *)

(** X28. [get_node_updates] hands out every queued update once and in
    queue order: a call returns all that is queued (or, on an empty
    queue, the one update it has waited for), never an empty vector,
    and leaves the queue empty, so that the next call returns only what
    arrives after it. *)
Theorem get_node_updates_spec arriving arriving' s :
  ∃ us s',
    get_node_updates arriving s = Done us s'
    ∧ us ≠ []
    ∧ us = (if decide (_update_queue s = []) then [arriving]
            else _update_queue s)
    ∧ _update_queue s' = []
    ∧ get_node_updates arriving' s' = Done [arriving'] s'.
Proof.
  unfold get_node_updates, bind, get, modify, ret.
  destruct (_update_queue s) as [|u q] eqn:Hq.
  - exists [arriving], s. rewrite Hq. by repeat split.
  - eexists _, _. split; [reflexivity|]. simpl. by repeat split.
Qed.
